(** * A quadrature rotation sensor driver (rotation-sensor.c)

    Shallow embedding of the driver's counter core: the edge handler
    [gpio_a_handler], the character-device methods [rotation_sensor_read] and
    [rotation_sensor_write], and the module's [rotation_sensor_init] /
    [rotation_sensor_exit].

    C integers are mathematical integers with the wrap-around of their type
    written out ([wrap]); the kernel is compiled with wrapping signed
    arithmetic.  The width of [long] is a parameter, [long_bits] (32 on the
    ARM board the pin comments refer to, 64 on LP64 machines); [int] has 32
    bits and [loff_t] 64.  What the kernel decides (allocation, user copies,
    GPIO levels, registration results) enters as explicit arguments. *)

From Stdlib Require Import ZArith Ascii String Bool Lia List.
Import ListNotations.
Local Open Scope Z_scope.

(** ** C integer types *)

(** Two's complement value of [x] in a signed type of [bits] bits. *)
Definition wrap (bits x : Z) : Z :=
  (x + 2 ^ (bits - 1)) mod 2 ^ bits - 2 ^ (bits - 1).

(** Value of [x] converted to the unsigned type of [bits] bits. *)
Definition uwrap (bits x : Z) : Z := x mod 2 ^ bits.

Definition in_signed (bits x : Z) : Prop :=
  - 2 ^ (bits - 1) <= x < 2 ^ (bits - 1).

Definition int_bits : Z := 32.
Definition loff_bits : Z := 64.
Definition INT_MAX : Z := 2 ^ 31 - 1.

(** Errno values used by the driver. *)
Definition ENOMEM : Z := 12.
Definition EFAULT : Z := 14.
Definition EINVAL : Z := 22.

Definition DEFAULT_GPIO_A : Z := 18.
Definition DEFAULT_GPIO_B : Z := 17.
Definition DEFAULT_COUNT_MAX : Z := 5000.

(** ** Driver private data *)

Record rotation_sensor_struct : Type := {
  value : Z;          (* long int *)
  spinlock : bool     (* true while the lock is held *)
}.

Inductive irqreturn_t : Type := IRQ_NONE | IRQ_HANDLED | IRQ_WAKE_THREAD.

Definition set_value (s : rotation_sensor_struct) (v : Z) :=
  {| value := v; spinlock := spinlock s |}.

(** Run alone, a [spin_lock] takes a free lock and [spin_unlock] frees it;
    contention between the two contexts is modelled in module [Smp]. *)
Definition spin_lock (s : rotation_sensor_struct) :=
  {| value := value s; spinlock := true |}.
Definition spin_unlock (s : rotation_sensor_struct) :=
  {| value := value s; spinlock := false |}.

(** ** Kernel library routines the driver calls *)

Definition code (c : ascii) : Z := Z.of_N (N_of_ascii c).

Definition NUL : ascii := ascii_of_N 0.
Definition LF : ascii := ascii_of_N 10.
Definition minus_sign : ascii := ascii_of_N 45.
Definition dot : ascii := ascii_of_N 46.

(** [isspace] and [isdigit] of the kernel's character table. *)
Definition isspace (c : ascii) : bool :=
  ((9 <=? code c) && (code c <=? 13)) || (code c =? 32) || (code c =? 160).

Definition isdigit (c : ascii) : bool :=
  (48 <=? code c) && (code c <=? 57).

(** The C string that starts at the head of [mem]: its bytes up to the
    first NUL. *)
Fixpoint cstr (mem : list ascii) : list ascii :=
  match mem with
  | [] => []
  | c :: rest => if code c =? 0 then [] else c :: cstr rest
  end.

Fixpoint skip_spaces (str : list ascii) : list ascii :=
  match str with
  | c :: rest => if isspace c then skip_spaces rest else str
  | [] => []
  end.

(** [_parse_integer] in base 10: the digits are accumulated in an
    [unsigned long long], the scan stops at the first other character. *)
Fixpoint parse_integer (str : list ascii) (res : Z) : Z :=
  match str with
  | c :: rest =>
    if isdigit c then parse_integer rest (uwrap 64 (res * 10 + (code c - 48)))
    else res
  | [] => res
  end.

(** The longest run of digits at the head of [str], and what follows it. *)
Fixpoint digit_run (str : list ascii) : list ascii :=
  match str with
  | c :: rest => if isdigit c then c :: digit_run rest else []
  | [] => []
  end.

Fixpoint after_digits (str : list ascii) : list ascii :=
  match str with
  | c :: rest => if isdigit c then after_digits rest else str
  | [] => []
  end.

(** The number a run of decimal digits denotes. *)
Definition decimal_value (ds : list ascii) : Z :=
  fold_left (fun acc c => acc * 10 + (code c - 48)) ds 0.

(** The specification's reading of the writer's input: [text] starts with
    a signed decimal integer, [n].  White space may come first, the sign is
    an optional minus, and the digits end where the first other character
    (or the end of the text) is found. *)
Definition spec_leading_integer (text : list ascii) (n : Z) : Prop :=
  exists (ws : list ascii) (neg : bool) (ds rest : list ascii),
    text = ws ++ (if neg then [minus_sign] else []) ++ ds ++ rest /\
    forallb isspace ws = true /\
    ds <> [] /\ forallb isdigit ds = true /\
    isdigit (hd NUL rest) = false /\
    n = if neg then - decimal_value ds else decimal_value ds.

(** The byte behind the buffer ends a number: it is no digit. *)
Definition stops_scan (beyond : list ascii) : bool :=
  negb (isdigit (hd NUL beyond)).

(** [%ld] of [snprintf]: decimal digits, most significant first. *)
Definition digit_char (d : Z) : ascii := ascii_of_N (Z.to_N (48 + d)).

Fixpoint put_dec (fuel : nat) (n : Z) (acc : list ascii) : list ascii :=
  match fuel with
  | O => acc
  | S f =>
    let acc' := digit_char (n mod 10) :: acc in
    if n <? 10 then acc' else put_dec f (n / 10) acc'
  end.

Definition dec_unsigned (n : Z) : list ascii :=
  put_dec (S (Z.to_nat (Z.log2 n))) n [].

Definition format_ld (n : Z) : list ascii :=
  if n <? 0 then minus_sign :: dec_unsigned (- n) else dec_unsigned n.

(** [snprintf(kbuffer, 64, "%ld.%ld\n", a, b)]: at most 63 characters are
    stored before the terminating NUL. *)
Definition snprintf_angle (a b : Z) : list ascii :=
  firstn 63 (format_ld a ++ dot :: format_ld b ++ [LF]).

(** The byte found [i] bytes after the start of [kbuffer]; outside the
    string it is whatever the memory around it holds, [stray]. *)
Definition kbuffer_at (kbuffer : list ascii) (stray : Z -> ascii) (i : Z) : ascii :=
  if (0 <=? i) && (i <? Z.of_nat (length kbuffer))
  then nth (Z.to_nat i) kbuffer NUL
  else stray i.

(** What the kernel decides during a [read]: how many bytes
    [copy_to_user] could not store, and the memory around [kbuffer]. *)
Record read_env : Type := {
  copy_to_user : Z;
  stray : Z -> ascii
}.

Record read_result : Type := {
  read_ret : Z;               (* ssize_t returned *)
  read_user : list ascii;     (* bytes stored in the caller's buffer *)
  read_pos : Z                (* [*offset] afterwards *)
}.

(** What the kernel decides during a [write]: whether [kmalloc] finds
    memory, how many bytes [copy_from_user] could not fetch, and the bytes
    that lie behind the buffer in memory.  The driver does not terminate
    [kbuffer], so [sscanf] goes on reading into them. *)
Record write_env : Type := {
  kmalloc_ok : bool;
  copy_from_user : Z;
  beyond : list ascii
}.

(** [kmalloc(length, GFP_KERNEL)].  A request of 0 bytes is answered with
    [ZERO_SIZE_PTR], which is not NULL and must not be dereferenced; any
    other request with a buffer of [length] bytes, or with NULL when no
    memory is found. *)
Inductive kmalloc_result : Type := kmalloc_NULL | ZERO_SIZE_PTR | kmalloc_buffer.

Definition kmalloc (e : write_env) (length : Z) : kmalloc_result :=
  if length =? 0 then ZERO_SIZE_PTR
  else if kmalloc_ok e then kmalloc_buffer else kmalloc_NULL.

Record write_result : Type := {
  write_ret : Z;
  write_sensor : rotation_sensor_struct
}.

(** A string literal as bytes, and a line: the literal followed by a
    newline. *)
Definition bytes (str : string) : list ascii := list_ascii_of_string str.
Definition line (str : string) : list ascii := bytes str ++ [LF].

(** The specification's angle string for a counter [k]:
    [(k*3600/modulus)/10], a dot, [(k*3600/modulus)%10] and a newline, over
    the integers, with truncating division. *)
Definition spec_angle_text (modulus k : Z) : list ascii :=
  format_ld (Z.quot (Z.quot (k * 3600) modulus) 10) ++
  dot :: format_ld (Z.rem (Z.quot (k * 3600) modulus) 10) ++ [LF].

(** Environments in which nothing goes wrong. *)
Definition read_env_ok : read_env := {| copy_to_user := 0; stray := fun _ => NUL |}.
Definition write_env_ok : write_env :=
  {| kmalloc_ok := true; copy_from_user := 0; beyond := [] |}.

Section Driver.

(** Width of [long] on the target, and the module parameter [count_max]. *)
Variable long_bits : Z.
Variable count_max : Z.

Definition long_wrap (x : Z) : Z := wrap long_bits x.
Definition in_long (x : Z) : Prop := in_signed long_bits x.

(** ** The edge handler *)

(** [while (sensor->value > count_max) sensor->value -= count_max;]
    [None] when the loop has not ended after [fuel] iterations. *)
Fixpoint while_above (fuel : nat) (s : rotation_sensor_struct)
  : option rotation_sensor_struct :=
  if value s >? count_max then
    match fuel with
    | O => None
    | S f => while_above f (set_value s (long_wrap (value s - count_max)))
    end
  else Some s.

(** [while (sensor->value < 0) sensor->value += count_max;] *)
Fixpoint while_below (fuel : nat) (s : rotation_sensor_struct)
  : option rotation_sensor_struct :=
  if value s <? 0 then
    match fuel with
    | O => None
    | S f => while_below f (set_value s (long_wrap (value s + count_max)))
    end
  else Some s.

(** [if (gpio_get_value(gpio_b)) sensor->value ++; else sensor->value --;]
    [level] is what [gpio_get_value(gpio_b)] returned. *)
Definition edge_step (level : Z) (s : rotation_sensor_struct) :=
  if level =? 0 then set_value s (long_wrap (value s - 1))
  else set_value s (long_wrap (value s + 1)).

Definition gpio_a_handler (fuel : nat) (level : Z) (sensor : rotation_sensor_struct)
  : option (rotation_sensor_struct * irqreturn_t) :=
  let s := spin_lock sensor in
  let s := edge_step level s in
  match while_above fuel s with
  | None => None
  | Some s =>
    match while_below fuel s with
    | None => None
    | Some s => Some (spin_unlock s, IRQ_HANDLED)
    end
  end.

(** The counter the handler leaves, in closed form: the step, then a value
    above [count_max] is brought into [1 .. count_max] and a negative one
    into [0 .. count_max - 1]. *)
Definition handler_value (level v : Z) : Z :=
  let v1 := if level =? 0 then long_wrap (v - 1) else long_wrap (v + 1) in
  if v1 >? count_max then (v1 - 1) mod count_max + 1
  else if v1 <? 0 then v1 mod count_max
  else v1.

(** A signal train with channel B high at every edge. *)
Definition all_high (n : nat) : list Z := repeat 1 n.

(** A train of rising edges on channel A: the handler runs once per edge,
    with the level of channel B found at that edge. *)
Fixpoint irq_events (fuel : nat) (levels : list Z) (sensor : rotation_sensor_struct)
  : option rotation_sensor_struct :=
  match levels with
  | [] => Some sensor
  | level :: rest =>
    match gpio_a_handler fuel level sensor with
    | None => None
    | Some (s, _) => irq_events fuel rest s
    end
  end.

(** The signed sum of a train of levels: +1 for high, -1 for low. *)
Definition signed_sum (levels : list Z) : Z :=
  fold_right (fun level acc => (if level =? 0 then -1 else 1) + acc) 0 levels.

(** ** [sscanf(kbuffer, "%ld", &value)] *)

Definition simple_strtoull (cp : list ascii) : Z := parse_integer cp 0.

Definition simple_strtoul (cp : list ascii) : Z :=
  uwrap long_bits (simple_strtoull cp).

Definition simple_strtol (cp : list ascii) : Z :=
  match cp with
  | c :: rest =>
    if code c =? 45 then long_wrap (uwrap long_bits (- simple_strtoul rest))
    else long_wrap (simple_strtoul cp)
  | [] => long_wrap (simple_strtoul cp)
  end.

(** [Some v] when one conversion was made and [v] stored, [None] when
    [sscanf] returns 0. *)
Definition sscanf_ld (str : list ascii) : option Z :=
  match str with
  | [] => None
  | _ :: _ =>
    let str := skip_spaces str in
    let digit :=
      match str with
      | [] => NUL
      | c :: rest => if code c =? 45 then hd NUL rest else c
      end in
    if isdigit digit then Some (simple_strtol str) else None
  end.

(** ** [rotation_sensor_read] *)

(** [angle = (g_rotation_sensor.value * 3600) / count_max], in [long]:
    the product wraps, the division truncates toward zero.  (With
    [count_max] 0 the division traps; the properties below take [count_max]
    positive.) *)
Definition angle_of (v : Z) : Z :=
  long_wrap (Z.quot (long_wrap (v * 3600)) count_max).

Definition format_angle (v : Z) : list ascii :=
  let angle := angle_of v in
  snprintf_angle (Z.quot angle 10) (Z.rem angle 10).

Definition rotation_sensor_read (e : read_env) (sensor : rotation_sensor_struct)
    (length offset : Z) : read_result :=
  let kbuffer := format_angle (value sensor) in
  let lg := wrap int_bits (Z.of_nat (List.length kbuffer)) in
  let lg := wrap int_bits (wrap loff_bits (lg - offset)) in
  if lg <=? 0 then
    {| read_ret := 0; read_user := []; read_pos := offset |}
  else
    let lg := if uwrap long_bits lg >? length then wrap int_bits length else lg in
    let src := map (fun i => kbuffer_at kbuffer (stray e) (offset + Z.of_nat i))
                   (seq 0 (Z.to_nat lg)) in
    if copy_to_user e =? 0 then
      {| read_ret := lg; read_user := src;
         read_pos := wrap loff_bits (offset + lg) |}
    else
      {| read_ret := - EFAULT;
         read_user := firstn (Z.to_nat (lg - copy_to_user e)) src;
         read_pos := offset |}.

(** A sequence of reads by one caller, each with its own capacity: the
    caller's cursor is carried from one call to the next. *)
Fixpoint read_chunks (e : read_env) (sensor : rotation_sensor_struct)
    (capacities : list Z) (offset : Z) : list ascii :=
  match capacities with
  | [] => []
  | c :: rest =>
    let r := rotation_sensor_read e sensor c offset in
    read_user r ++ read_chunks e sensor rest (read_pos r)
  end.

(** ** [rotation_sensor_write] *)

(** [None]: the kernel faults inside the call, which does not return.
    That is the fate of a write of no bytes: the copy of 0 bytes succeeds
    and [sscanf] reads its first character through [ZERO_SIZE_PTR]. *)
Definition rotation_sensor_write (e : write_env) (sensor : rotation_sensor_struct)
    (buffer : list ascii) : option write_result :=
  let length := Z.of_nat (List.length buffer) in
  match kmalloc e length with
  | kmalloc_NULL => Some {| write_ret := - ENOMEM; write_sensor := sensor |}
  | ZERO_SIZE_PTR => None
  | kmalloc_buffer =>
    if negb (copy_from_user e =? 0) then
      Some {| write_ret := - EFAULT; write_sensor := sensor |}
    else
      match sscanf_ld (cstr (buffer ++ beyond e)) with
      | None => Some {| write_ret := - EINVAL; write_sensor := sensor |}
      | Some v =>
        Some {| write_ret := long_wrap length;
                write_sensor := spin_unlock (set_value (spin_lock sensor) v) |}
      end
  end.

End Driver.

(** ** Module initialisation and exit *)

(** What the module holds from the kernel. *)
Inductive resource : Type :=
| GpioLine (gpio : Z)
| IrqHandler (gpio : Z)
| MiscDevice.

Inductive event : Type :=
| Acquired (r : resource)
| Released (r : resource).

(** The resources held, the latest first, and the history of
    acquisitions and releases, the earliest first. *)
Record kernel : Type := {
  held : list resource;
  history : list event
}.

Definition resource_eqb (a b : resource) : bool :=
  match a, b with
  | GpioLine x, GpioLine y => x =? y
  | IrqHandler x, IrqHandler y => x =? y
  | MiscDevice, MiscDevice => true
  | _, _ => false
  end.

Fixpoint remove_first (r : resource) (l : list resource) : list resource :=
  match l with
  | [] => []
  | x :: rest => if resource_eqb r x then rest else x :: remove_first r rest
  end.

Definition acquire (r : resource) (k : kernel) : kernel :=
  {| held := r :: held k; history := history k ++ [Acquired r] |}.

Definition release (r : resource) (k : kernel) : kernel :=
  {| held := remove_first r (held k); history := history k ++ [Released r] |}.

(** Nothing held yet. *)
Definition boot : kernel := {| held := []; history := [] |}.

(** The value each kernel call of [rotation_sensor_init] returns: 0 or a
    negative errno. *)
Record init_env : Type := {
  gpio_request_a : Z;
  gpio_request_b : Z;
  gpio_direction_input_a : Z;
  gpio_direction_input_b : Z;
  request_irq : Z;
  misc_register : Z
}.

Record init_result : Type := {
  init_ret : Z;
  init_kernel : kernel;
  init_sensor : rotation_sensor_struct
}.

Section Lifecycle.

(** The module parameters [gpio_a] and [gpio_b]. *)
Variable gpio_a : Z.
Variable gpio_b : Z.

Definition gpio_free (gpio : Z) (k : kernel) : kernel := release (GpioLine gpio) k.

Definition rotation_sensor_init (e : init_env) (k : kernel) : init_result :=
  let sensor := {| value := 0; spinlock := false |} in
  let err := gpio_request_a e in
  if negb (err =? 0) then
    {| init_ret := err; init_kernel := k; init_sensor := sensor |}
  else
    let k := acquire (GpioLine gpio_a) k in
    let err := gpio_request_b e in
    if negb (err =? 0) then
      {| init_ret := err; init_kernel := gpio_free gpio_a k; init_sensor := sensor |}
    else
      let k := acquire (GpioLine gpio_b) k in
      if negb (gpio_direction_input_a e =? 0) || negb (gpio_direction_input_b e =? 0) then
        {| init_ret := err; init_kernel := gpio_free gpio_a (gpio_free gpio_b k);
           init_sensor := sensor |}
      else
        let err := request_irq e in
        if negb (err =? 0) then
          {| init_ret := err; init_kernel := gpio_free gpio_a (gpio_free gpio_b k);
             init_sensor := sensor |}
        else
          let k := acquire (IrqHandler gpio_a) k in
          let err := misc_register e in
          let k := if err =? 0 then acquire MiscDevice k else k in
          {| init_ret := err; init_kernel := k; init_sensor := sensor |}.

Definition rotation_sensor_exit (k : kernel) : kernel :=
  let k := release MiscDevice k in
  let k := release (IrqHandler gpio_a) k in
  let k := gpio_free gpio_b k in
  gpio_free gpio_a k.

End Lifecycle.

(** ** The two contexts side by side

    The edge handler and a reader on two processors, one statement at a
    time: the program counters name the statement each context executes
    next. *)
Module Smp.

Inductive handler_pc : Type :=
| H_spin_lock | H_edge | H_while_above | H_while_below | H_spin_unlock | H_return.

Inductive reader_pc : Type :=
| R_angle | R_spin_lock | R_snprintf | R_spin_unlock | R_strlen.

Inductive context : Type := Edge | Request.

Record config : Type := {
  sensor : rotation_sensor_struct;   (* [g_rotation_sensor] *)
  h_pc : handler_pc;
  r_pc : reader_pc;
  r_angle : Z;                       (* the reader's local [angle] *)
  r_kbuffer : list ascii             (* the reader's local [kbuffer] *)
}.

Section Machine.

Variable long_bits : Z.
Variable count_max : Z.
(** The level [gpio_get_value(gpio_b)] returns to the handler. *)
Variable level : Z.

Definition set_sensor (c : config) (s : rotation_sensor_struct) : config :=
  {| sensor := s; h_pc := h_pc c; r_pc := r_pc c;
     r_angle := r_angle c; r_kbuffer := r_kbuffer c |}.

Definition set_h_pc (c : config) (pc : handler_pc) : config :=
  {| sensor := sensor c; h_pc := pc; r_pc := r_pc c;
     r_angle := r_angle c; r_kbuffer := r_kbuffer c |}.

Definition set_r_pc (c : config) (pc : reader_pc) : config :=
  {| sensor := sensor c; h_pc := h_pc c; r_pc := pc;
     r_angle := r_angle c; r_kbuffer := r_kbuffer c |}.

(** One statement of [gpio_a_handler]; [None] when the context cannot
    move: it spins on the lock, or has returned. *)
Definition step_edge (c : config) : option config :=
  match h_pc c with
  | H_spin_lock =>
    if spinlock (sensor c) then None
    else Some (set_h_pc (set_sensor c (spin_lock (sensor c))) H_edge)
  | H_edge =>
    Some (set_h_pc (set_sensor c (edge_step long_bits level (sensor c))) H_while_above)
  | H_while_above =>
    if value (sensor c) >? count_max then
      Some (set_sensor c (set_value (sensor c)
                            (long_wrap long_bits (value (sensor c) - count_max))))
    else Some (set_h_pc c H_while_below)
  | H_while_below =>
    if value (sensor c) <? 0 then
      Some (set_sensor c (set_value (sensor c)
                            (long_wrap long_bits (value (sensor c) + count_max))))
    else Some (set_h_pc c H_spin_unlock)
  | H_spin_unlock =>
    Some (set_h_pc (set_sensor c (spin_unlock (sensor c))) H_return)
  | H_return => None
  end.

(** One statement of [rotation_sensor_read], up to the release of the
    lock; what follows works on the reader's locals only. *)
Definition step_request (c : config) : option config :=
  match r_pc c with
  | R_angle =>
    Some {| sensor := sensor c; h_pc := h_pc c; r_pc := R_spin_lock;
            r_angle := angle_of long_bits count_max (value (sensor c));
            r_kbuffer := r_kbuffer c |}
  | R_spin_lock =>
    if spinlock (sensor c) then None
    else Some (set_r_pc (set_sensor c (spin_lock (sensor c))) R_snprintf)
  | R_snprintf =>
    Some {| sensor := sensor c; h_pc := h_pc c; r_pc := R_spin_unlock;
            r_angle := r_angle c;
            r_kbuffer := snprintf_angle (Z.quot (r_angle c) 10) (Z.rem (r_angle c) 10) |}
  | R_spin_unlock =>
    Some (set_r_pc (set_sensor c (spin_unlock (sensor c))) R_strlen)
  | R_strlen => None
  end.

Definition step (who : context) (c : config) : option config :=
  match who with
  | Edge => step_edge c
  | Request => step_request c
  end.

(** The contexts take turns as [schedule] says. *)
Fixpoint run (schedule : list context) (c : config) : option config :=
  match schedule with
  | [] => Some c
  | who :: rest =>
    match step who c with
    | None => None
    | Some c' => run rest c'
    end
  end.

(** Both contexts at their first statement, the lock free. *)
Definition start (v : Z) : config :=
  {| sensor := {| value := v; spinlock := false |};
     h_pc := H_spin_lock; r_pc := R_angle; r_angle := 0; r_kbuffer := [] |}.

(** The handler is between its [spin_lock] and its [spin_unlock]. *)
Definition handler_in_section (c : config) : bool :=
  match h_pc c with
  | H_edge | H_while_above | H_while_below | H_spin_unlock => true
  | H_spin_lock | H_return => false
  end.

(** The reader is between its [spin_lock_irqsave] and its
    [spin_unlock_irqrestore]. *)
Definition reader_in_section (c : config) : bool :=
  match r_pc c with
  | R_snprintf | R_spin_unlock => true
  | R_angle | R_spin_lock | R_strlen => false
  end.

(** The lock is held exactly while one context is in its section, and
    the two are never there together. *)
Definition lock_invariant (c : config) : Prop :=
  spinlock (sensor c) = handler_in_section c || reader_in_section c /\
  handler_in_section c && reader_in_section c = false.

End Machine.

End Smp.

(** * Properties *)

(** Splits a conjunction into all its conjuncts, leaving implications and
    equivalences whole. *)
Ltac conjuncts := repeat match goal with |- _ /\ _ => split end.

(** ** Facts about the integer types *)

Lemma pow2_split (bits : Z) : 0 < bits -> 2 ^ bits = 2 * 2 ^ (bits - 1).
Proof.
  intros Hb. replace bits with (Z.succ (bits - 1)) at 1 by lia.
  rewrite Z.pow_succ_r by lia. reflexivity.
Qed.

Lemma wrap_small (bits x : Z) : 0 < bits -> in_signed bits x -> wrap bits x = x.
Proof.
  unfold in_signed, wrap. intros Hb Hx.
  rewrite (pow2_split bits Hb).
  rewrite Z.mod_small; lia.
Qed.

Lemma wrap_in_signed (bits x : Z) : 0 < bits -> in_signed bits (wrap bits x).
Proof.
  unfold in_signed, wrap. intros Hb.
  assert (Hp : 0 < 2 ^ (bits - 1)) by (apply Z.pow_pos_nonneg; lia).
  pose proof (Z.mod_pos_bound (x + 2 ^ (bits - 1)) (2 ^ bits)) as Hm.
  rewrite (pow2_split bits Hb) in *. lia.
Qed.

(** ** Facts about the kernel library routines *)

Lemma code_inj (c : ascii) (n : N) : code c = Z.of_N n -> c = ascii_of_N n.
Proof.
  unfold code. intros H. apply N2Z.inj in H. rewrite <- H.
  symmetry. apply ascii_N_embedding.
Qed.

Lemma code_digit_char (d : Z) : 0 <= d <= 9 -> code (digit_char d) = 48 + d.
Proof.
  intros Hd. unfold code, digit_char.
  rewrite N_ascii_embedding by lia. lia.
Qed.

Lemma isdigit_digit_char (d : Z) : 0 <= d <= 9 -> isdigit (digit_char d) = true.
Proof.
  intros Hd. unfold isdigit. rewrite (code_digit_char d Hd). lia.
Qed.

Lemma isdigit_not_space (c : ascii) : isdigit c = true -> isspace c = false.
Proof. unfold isdigit, isspace. lia. Qed.

Lemma isdigit_not_minus (c : ascii) : isdigit c = true -> (code c =? 45) = false.
Proof. unfold isdigit. lia. Qed.

Lemma isdigit_not_nul (c : ascii) : isdigit c = true -> (code c =? 0) = false.
Proof. unfold isdigit. lia. Qed.

Lemma put_dec_digits (fuel : nat) :
  forall n acc, forallb isdigit acc = true -> forallb isdigit (put_dec fuel n acc) = true.
Proof.
  induction fuel as [|f IH]; intros n acc Hacc; simpl.
  - assumption.
  - assert (Hd : isdigit (digit_char (n mod 10)) = true).
    { apply isdigit_digit_char. pose proof (Z.mod_pos_bound n 10). lia. }
    destruct (n <? 10).
    + simpl. rewrite Hd. assumption.
    + apply IH. simpl. rewrite Hd. assumption.
Qed.

Lemma put_dec_nonempty (fuel : nat) (n : Z) (acc : list ascii) :
  acc <> [] \/ fuel <> O -> put_dec fuel n acc <> [].
Proof.
  revert n acc. induction fuel as [|f IH]; intros n acc H; simpl.
  - destruct H as [H|H]; [assumption|contradiction].
  - destruct (n <? 10); [discriminate|].
    apply IH. left. discriminate.
Qed.

(** Reading the digits back gives the number they were printed from. *)
Lemma put_dec_value (fuel : nat) :
  forall n acc, 0 <= n < 2 ^ Z.of_nat fuel ->
    fold_left (fun a c => a * 10 + (code c - 48)) (put_dec fuel n acc) 0 =
    fold_left (fun a c => a * 10 + (code c - 48)) acc n.
Proof.
  induction fuel as [|f IH]; intros n acc Hn.
  - simpl in *. replace n with 0 by lia. reflexivity.
  - assert (Hc : code (digit_char (n mod 10)) - 48 = n mod 10).
    { rewrite code_digit_char; [lia|]. pose proof (Z.mod_pos_bound n 10). lia. }
    simpl put_dec. destruct (n <? 10) eqn:E.
    + simpl. rewrite Hc. rewrite Z.mod_small by lia. reflexivity.
    + rewrite IH.
      * simpl. rewrite Hc. f_equal.
        pose proof (Z_div_mod_eq_full n 10). lia.
      * rewrite Nat2Z.inj_succ, Z.pow_succ_r in Hn by lia.
        split; [apply Z.div_pos; lia|].
        apply Z.div_lt_upper_bound; lia.
Qed.

Lemma put_dec_length (fuel : nat) :
  forall (k : nat) n acc, (1 <= k)%nat -> 0 <= n < 10 ^ Z.of_nat k ->
    (length (put_dec fuel n acc) <= k + length acc)%nat.
Proof.
  induction fuel as [|f IH]; intros k n acc Hk Hn; simpl.
  - lia.
  - destruct (n <? 10) eqn:E; simpl; [lia|].
    destruct k as [|[|k]]; [lia|simpl in Hn; lia|].
    specialize (IH (S k) (n / 10) (digit_char (n mod 10) :: acc)).
    simpl length in IH. replace (S (S k) + length acc)%nat
      with (S k + S (length acc))%nat by lia.
    apply IH; [lia|].
    rewrite (Nat2Z.inj_succ (S k)), Z.pow_succ_r in Hn by lia.
    split; [apply Z.div_pos; lia|].
    apply Z.div_lt_upper_bound; lia.
Qed.

Lemma dec_unsigned_fuel (n : Z) : 0 <= n -> n < 2 ^ Z.of_nat (S (Z.to_nat (Z.log2 n))).
Proof.
  intros Hn. rewrite Nat2Z.inj_succ, Z2Nat.id by apply Z.log2_nonneg.
  destruct (Z.eq_dec n 0) as [->|Hz]; [reflexivity|].
  apply Z.log2_spec. lia.
Qed.

Lemma dec_unsigned_value (n : Z) : 0 <= n -> decimal_value (dec_unsigned n) = n.
Proof.
  intros Hn. unfold decimal_value, dec_unsigned.
  rewrite put_dec_value; [reflexivity|].
  split; [assumption|apply dec_unsigned_fuel; assumption].
Qed.

Lemma dec_unsigned_digits (n : Z) : forallb isdigit (dec_unsigned n) = true.
Proof. apply put_dec_digits. reflexivity. Qed.

Lemma dec_unsigned_nonempty (n : Z) : dec_unsigned n <> [].
Proof. apply put_dec_nonempty. right. discriminate. Qed.

Lemma dec_unsigned_length (n : Z) (k : nat) :
  (1 <= k)%nat -> 0 <= n < 10 ^ Z.of_nat k -> (length (dec_unsigned n) <= k)%nat.
Proof.
  intros Hk Hn. unfold dec_unsigned.
  etransitivity; [apply (put_dec_length _ k n [] Hk Hn)|].
  rewrite Nat.add_0_r. apply Nat.le_refl.
Qed.

Lemma format_ld_length (n : Z) : - 2 ^ 63 <= n < 2 ^ 63 -> (length (format_ld n) <= 20)%nat.
Proof.
  intros Hn. unfold format_ld.
  assert (H19 : 2 ^ 63 < 10 ^ Z.of_nat 19) by (vm_compute; reflexivity).
  destruct (n <? 0) eqn:E; simpl.
  - pose proof (dec_unsigned_length (- n) 19 ltac:(lia) ltac:(lia)). lia.
  - pose proof (dec_unsigned_length n 19 ltac:(lia) ltac:(lia)). lia.
Qed.

Lemma skip_spaces_app (ws str : list ascii) :
  forallb isspace ws = true -> skip_spaces (ws ++ str) = skip_spaces str.
Proof.
  induction ws as [|c ws IH]; simpl; intros H.
  - reflexivity.
  - apply andb_true_iff in H. destruct H as [Hc Hws].
    rewrite Hc. apply IH. assumption.
Qed.

Lemma skip_spaces_head (c : ascii) (rest : list ascii) :
  isspace c = false -> skip_spaces (c :: rest) = c :: rest.
Proof. intros H. simpl. rewrite H. reflexivity. Qed.

Lemma skip_spaces_split (text : list ascii) :
  exists ws, text = ws ++ skip_spaces text /\ forallb isspace ws = true.
Proof.
  induction text as [|c text IH].
  - exists []. split; reflexivity.
  - simpl. destruct (isspace c) eqn:E.
    + destruct IH as (ws & H1 & H2). exists (c :: ws). simpl.
      rewrite E, H2, <- H1. split; reflexivity.
    + exists []. split; reflexivity.
Qed.

Lemma digit_run_split (str : list ascii) :
  str = digit_run str ++ after_digits str /\
  forallb isdigit (digit_run str) = true /\
  isdigit (hd NUL (after_digits str)) = false.
Proof.
  induction str as [|c str (H1 & H2 & H3)].
  - repeat split.
  - simpl. destruct (isdigit c) eqn:E; simpl.
    + rewrite E, <- H1, H2, H3. repeat split.
    + rewrite E. repeat split.
Qed.

Lemma uwrap_idemp_step (res d : Z) :
  uwrap 64 (uwrap 64 res * 10 + d) = uwrap 64 (res * 10 + d).
Proof.
  unfold uwrap.
  rewrite <- (Z.add_mod_idemp_l (res mod 2 ^ 64 * 10)) by (vm_compute; discriminate).
  rewrite Z.mul_mod_idemp_l by (vm_compute; discriminate).
  rewrite Z.add_mod_idemp_l by (vm_compute; discriminate). reflexivity.
Qed.

(** [_parse_integer] computes the value of the digit run, modulo [2 ^ 64]. *)
Lemma parse_integer_value (ds : list ascii) :
  forall rest res, forallb isdigit ds = true -> isdigit (hd NUL rest) = false ->
    parse_integer (ds ++ rest) (uwrap 64 res) =
    uwrap 64 (fold_left (fun a c => a * 10 + (code c - 48)) ds res).
Proof.
  induction ds as [|c ds IH]; intros rest res Hds Hrest; simpl.
  - destruct rest as [|r rest]; [reflexivity|]. simpl in *. rewrite Hrest. reflexivity.
  - simpl in Hds. apply andb_true_iff in Hds. destruct Hds as [Hc Hds].
    rewrite Hc, uwrap_idemp_step. apply IH; assumption.
Qed.

Lemma uwrap_neg (bits x : Z) : uwrap bits (- uwrap bits x) = uwrap bits (- x).
Proof.
  unfold uwrap. destruct (Z.eq_dec (2 ^ bits) 0) as [E|E].
  - rewrite E, !Z.mod_0_r. reflexivity.
  - pose proof (Z_div_mod_eq_full x (2 ^ bits)) as H.
    replace (- (x mod 2 ^ bits)) with (- x + (x / 2 ^ bits) * 2 ^ bits) by lia.
    apply Z.mod_add. assumption.
Qed.

Lemma wrap_uwrap (bits x : Z) : wrap bits (uwrap bits x) = wrap bits x.
Proof.
  unfold wrap, uwrap. destruct (Z.eq_dec (2 ^ bits) 0) as [E|E].
  - rewrite E, !Z.mod_0_r. reflexivity.
  - rewrite Z.add_mod_idemp_l by assumption. reflexivity.
Qed.

Lemma quot_rem_abs (a m : Z) :
  0 < m -> Z.abs (Z.quot a m) <= Z.abs a /\ Z.abs (Z.rem a m) < m.
Proof.
  intros Hm. destruct (Z_le_gt_dec 0 a) as [Ha|Ha].
  - pose proof (Z.quot_rem' a m).
    pose proof (Z.rem_bound_pos a m ltac:(lia) ltac:(lia)). nia.
  - replace a with (- (- a)) by lia.
    rewrite Z.quot_opp_l, Z.rem_opp_l by lia.
    pose proof (Z.quot_rem' (- a) m).
    pose proof (Z.rem_bound_pos (- a) m ltac:(lia) ltac:(lia)). nia.
Qed.

Lemma quot_sign (a m : Z) :
  0 < m -> (0 <= a -> 0 <= Z.quot a m) /\ (a <= 0 -> Z.quot a m <= 0).
Proof.
  intros Hm. split; intros Ha.
  - apply Z.quot_pos; lia.
  - replace a with (- (- a)) by lia. rewrite Z.quot_opp_l by lia.
    pose proof (Z.quot_pos (- a) m ltac:(lia) ltac:(lia)). lia.
Qed.

Lemma wrap_int_small (x : Z) :
  -2147483648 <= x < 2147483648 -> wrap int_bits x = x.
Proof.
  intros H. apply wrap_small; [reflexivity|].
  unfold in_signed. change (2 ^ (int_bits - 1)) with 2147483648. assumption.
Qed.

Lemma wrap_loff_small (x : Z) :
  -9223372036854775808 <= x < 9223372036854775808 -> wrap loff_bits x = x.
Proof.
  intros H. apply wrap_small; [reflexivity|].
  unfold in_signed. change (2 ^ (loff_bits - 1)) with 9223372036854775808. assumption.
Qed.

Lemma snprintf_angle_length (a b : Z) : (length (snprintf_angle a b) <= 63)%nat.
Proof. apply firstn_le_length. Qed.

(** The bytes [copy_to_user] takes from inside the string. *)
Lemma kbuffer_slice (kbuffer : list ascii) (mem : Z -> ascii) (off n : nat) :
  (off + n <= length kbuffer)%nat ->
  map (fun i => kbuffer_at kbuffer mem (Z.of_nat off + Z.of_nat i)) (seq 0 n) =
  firstn n (skipn off kbuffer).
Proof.
  intros Hle.
  apply (nth_ext _ _ (kbuffer_at kbuffer mem (Z.of_nat off + Z.of_nat 0)) NUL).
  - rewrite length_map, length_seq, length_firstn, length_skipn. lia.
  - intros i Hi. rewrite length_map, length_seq in Hi.
    rewrite (map_nth (fun i => kbuffer_at kbuffer mem (Z.of_nat off + Z.of_nat i))).
    rewrite seq_nth by assumption. rewrite nth_firstn, nth_skipn.
    assert (E : (i <? n)%nat = true) by (apply Nat.ltb_lt; assumption).
    rewrite E. unfold kbuffer_at.
    assert (E1 : (0 <=? Z.of_nat off + Z.of_nat (0 + i)) = true)
      by (apply Z.leb_le; lia).
    assert (E2 : (Z.of_nat off + Z.of_nat (0 + i) <? Z.of_nat (length kbuffer)) = true)
      by (apply Z.ltb_lt; lia).
    rewrite E1, E2. simpl. f_equal. lia.
Qed.

Lemma cstr_app (l rest : list ascii) :
  forallb (fun c => negb (code c =? 0)) l = true -> cstr (l ++ rest) = l ++ cstr rest.
Proof.
  induction l as [|c l IH]; simpl; intros H.
  - reflexivity.
  - apply andb_true_iff in H. destruct H as [Hc Hl].
    apply negb_true_iff in Hc. rewrite Hc, IH by assumption. reflexivity.
Qed.

Lemma digits_no_nul (ds : list ascii) :
  forallb isdigit ds = true -> forallb (fun c => negb (code c =? 0)) ds = true.
Proof.
  induction ds as [|c ds IH]; simpl; intros H; [reflexivity|].
  apply andb_true_iff in H. destruct H as [Hc Hds].
  rewrite (isdigit_not_nul c Hc), IH by assumption. reflexivity.
Qed.

Lemma format_ld_no_nul (n : Z) :
  forallb (fun c => negb (code c =? 0)) (format_ld n) = true.
Proof.
  unfold format_ld. destruct (n <? 0); simpl;
    apply digits_no_nul, dec_unsigned_digits.
Qed.

Lemma stops_scan_cstr (beyond : list ascii) :
  stops_scan beyond = true -> isdigit (hd NUL (cstr beyond)) = false.
Proof.
  unfold stops_scan. destruct beyond as [|c rest]; simpl; intros H.
  - reflexivity.
  - destruct (code c =? 0); [reflexivity|].
    simpl. apply negb_true_iff. assumption.
Qed.

Section DriverFacts.

Variable long_bits : Z.
Variable count_max : Z.

(** The two data models the kernel runs on. *)
Hypothesis long_ok : long_bits = 32 \/ long_bits = 64.

Local Abbreviation long_wrap := (long_wrap long_bits).
Local Abbreviation in_long := (in_long long_bits).
Local Abbreviation while_above := (while_above long_bits count_max).
Local Abbreviation while_below := (while_below long_bits count_max).
Local Abbreviation edge_step := (edge_step long_bits).
Local Abbreviation gpio_a_handler := (gpio_a_handler long_bits count_max).
Local Abbreviation irq_events := (irq_events long_bits count_max).
Local Abbreviation handler_value := (handler_value long_bits count_max).
Local Abbreviation simple_strtoul := (simple_strtoul long_bits).
Local Abbreviation simple_strtol := (simple_strtol long_bits).
Local Abbreviation sscanf_ld := (sscanf_ld long_bits).
Local Abbreviation angle_of := (angle_of long_bits count_max).
Local Abbreviation format_angle := (format_angle long_bits count_max).
Local Abbreviation rotation_sensor_read := (rotation_sensor_read long_bits count_max).
Local Abbreviation read_chunks := (read_chunks long_bits count_max).
Local Abbreviation rotation_sensor_write := (rotation_sensor_write long_bits).

Lemma long_bits_pos : 0 < long_bits.
Proof. destruct long_ok; lia. Qed.

Lemma long_half_ge : 2 ^ 31 <= 2 ^ (long_bits - 1).
Proof. destruct long_ok; subst; vm_compute; discriminate. Qed.

Lemma long_wrap_small (x : Z) : in_long x -> long_wrap x = x.
Proof. apply wrap_small, long_bits_pos. Qed.

Lemma long_wrap_in_long (x : Z) : in_long (long_wrap x).
Proof. apply wrap_in_signed, long_bits_pos. Qed.

(** ** The loops of the handler *)

Lemma while_above_fuel_mono (n : nat) :
  forall s r, while_above n s = Some r -> forall m, (n <= m)%nat -> while_above m s = Some r.
Proof.
  induction n as [|n IH]; intros s r Hr m Hm.
  - simpl in Hr. destruct (value s >? count_max) eqn:E; [discriminate|].
    destruct m; simpl; rewrite E; assumption.
  - simpl in Hr. destruct m as [|m]; [lia|]. simpl.
    destruct (value s >? count_max) eqn:E; [|assumption].
    apply IH; [assumption|lia].
Qed.

Lemma while_below_fuel_mono (n : nat) :
  forall s r, while_below n s = Some r -> forall m, (n <= m)%nat -> while_below m s = Some r.
Proof.
  induction n as [|n IH]; intros s r Hr m Hm.
  - simpl in Hr. destruct (value s <? 0) eqn:E; [discriminate|].
    destruct m; simpl; rewrite E; assumption.
  - simpl in Hr. destruct m as [|m]; [lia|]. simpl.
    destruct (value s <? 0) eqn:E; [|assumption].
    apply IH; [assumption|lia].
Qed.

(** The first loop ends after [k] subtractions; a value above [count_max]
    lands in [1 .. count_max]. *)
Lemma while_above_run (n : nat) :
  forall s, 0 < count_max -> in_long (value s) ->
    value s <= count_max * (Z.of_nat n + 1) ->
    exists s' k, while_above n s = Some s' /\ spinlock s' = spinlock s /\
      0 <= k /\ value s = value s' + k * count_max /\
      (value s <= count_max -> k = 0) /\
      (count_max < value s -> 1 <= value s' <= count_max).
Proof.
  induction n as [|n IH]; intros s Hm Hin Hle.
  - exists s, 0. simpl. assert (E : (value s >? count_max) = false) by lia.
    rewrite E. repeat split; lia.
  - simpl. destruct (value s >? count_max) eqn:E.
    + assert (Hw : long_wrap (value s - count_max) = value s - count_max).
      { apply long_wrap_small. unfold in_long, in_signed in *. lia. }
      destruct (IH (set_value s (long_wrap (value s - count_max)))) as (s' & k & H1 & H2 & H3 & H4 & H5 & H6).
      * assumption.
      * simpl. rewrite Hw. unfold in_long, in_signed in *. lia.
      * simpl. rewrite Hw. lia.
      * simpl in *. rewrite Hw in *. exists s', (k + 1).
        assert (Hr : 1 <= value s' <= count_max).
        { destruct (Z_le_gt_dec (value s - count_max) count_max) as [Hs|Hs].
          - specialize (H5 Hs). subst k. lia.
          - apply H6. lia. }
        repeat split; try assumption; lia.
    + exists s, 0. repeat split; lia.
Qed.

(** The second loop ends after [k] additions; a negative value lands in
    [0 .. count_max - 1]. *)
Lemma while_below_run (n : nat) :
  forall s, 0 < count_max -> count_max <= INT_MAX -> in_long (value s) ->
    - (count_max * Z.of_nat n) <= value s ->
    exists s' k, while_below n s = Some s' /\ spinlock s' = spinlock s /\
      0 <= k /\ value s' = value s + k * count_max /\
      (0 <= value s -> k = 0) /\
      (value s < 0 -> 0 <= value s' < count_max).
Proof.
  pose proof long_half_ge as Hh.
  induction n as [|n IH]; intros s Hm Hi Hin Hle.
  - exists s, 0. simpl. assert (E : (value s <? 0) = false) by lia.
    rewrite E. repeat split; lia.
  - simpl. destruct (value s <? 0) eqn:E.
    + assert (Hw : long_wrap (value s + count_max) = value s + count_max).
      { apply long_wrap_small. unfold in_long, in_signed, INT_MAX in *. lia. }
      destruct (IH (set_value s (long_wrap (value s + count_max)))) as (s' & k & H1 & H2 & H3 & H4 & H5 & H6).
      * assumption.
      * assumption.
      * simpl. rewrite Hw. unfold in_long, in_signed, INT_MAX in *. lia.
      * simpl. rewrite Hw. lia.
      * simpl in *. rewrite Hw in *. exists s', (k + 1).
        assert (Hr : 0 <= value s' < count_max).
        { destruct (Z_lt_ge_dec (value s + count_max) 0) as [Hs|Hs].
          - apply H6. lia.
          - assert (k = 0) by (apply H5; lia). subst k. lia. }
        repeat split; try assumption; lia.
    + exists s, 0. repeat split; lia.
Qed.

(** ** The edge handler *)

Lemma edge_step_in_long (level : Z) (s : rotation_sensor_struct) :
  in_long (value (edge_step level s)).
Proof.
  unfold edge_step. destruct (level =? 0); simpl; apply long_wrap_in_long.
Qed.

Lemma gpio_a_handler_fuel_mono (n m : nat) (level : Z) (s : rotation_sensor_struct) r :
  gpio_a_handler n level s = Some r -> (n <= m)%nat -> gpio_a_handler m level s = Some r.
Proof.
  unfold gpio_a_handler. intros H Hnm.
  destruct (while_above n _) as [s1|] eqn:E1; [|discriminate].
  rewrite (while_above_fuel_mono n _ _ E1 m Hnm).
  destruct (while_below n s1) as [s2|] eqn:E2; [|discriminate].
  rewrite (while_below_fuel_mono n _ _ E2 m Hnm). assumption.
Qed.

Lemma irq_events_fuel_mono (n m : nat) (levels : list Z) :
  forall s r, irq_events n levels s = Some r -> (n <= m)%nat -> irq_events m levels s = Some r.
Proof.
  induction levels as [|level rest IH]; intros s r H Hnm; simpl in *.
  - assumption.
  - destruct (gpio_a_handler n level s) as [[s1 i]|] eqn:E; [|discriminate].
    rewrite (gpio_a_handler_fuel_mono n m level s _ E Hnm). apply IH; assumption.
Qed.

(** The handler returns, whatever value it finds, and leaves the counter
    in [0 .. count_max] with the lock released. *)
Lemma gpio_a_handler_returns (level : Z) (s : rotation_sensor_struct) :
  0 < count_max <= INT_MAX -> in_long (value s) ->
  exists fuel s', gpio_a_handler fuel level s = Some (s', IRQ_HANDLED) /\
    0 <= value s' <= count_max /\ spinlock s' = false.
Proof.
  intros [Hm Hi] Hin. unfold gpio_a_handler.
  set (s1 := edge_step level (spin_lock s)).
  pose proof (edge_step_in_long level (spin_lock s)) as Hin1. fold s1 in Hin1.
  set (n := Z.to_nat (Z.abs (value s1))).
  destruct (while_above_run n s1 Hm Hin1) as (s2 & k & E2 & _ & Hk & Hv & Hk0 & Hr).
  { subst n. rewrite Z2Nat.id by lia. nia. }
  assert (Hin2 : in_long (value s2)).
  { unfold in_long, in_signed in *. nia. }
  destruct (while_below_run n s2 Hm Hi Hin2) as (s3 & k' & E3 & _ & Hk' & Hv' & Hk0' & Hr').
  { subst n. rewrite Z2Nat.id by lia.
    destruct (Z_le_gt_dec (value s1) count_max) as [Hs|Hs].
    - specialize (Hk0 Hs). subst k. nia.
    - specialize (Hr ltac:(lia)). nia. }
  exists n, (spin_unlock s3). rewrite E2, E3. repeat split; simpl.
  - destruct (Z_lt_ge_dec (value s2) 0) as [Hs|Hs]; [specialize (Hr' Hs); lia|].
    specialize (Hk0' ltac:(lia)). subst k'. lia.
  - destruct (Z_lt_ge_dec (value s2) 0) as [Hs|Hs]; [specialize (Hr' Hs); lia|].
    specialize (Hk0' ltac:(lia)). subst k'.
    destruct (Z_le_gt_dec (value s1) count_max) as [Hs1|Hs1].
    + specialize (Hk0 Hs1). subst k. lia.
    + specialize (Hr ltac:(lia)). lia.
Qed.

(** From a counter in [0 .. count_max] one round of each loop is enough,
    and the counter moves by the step modulo [count_max]. *)
Lemma gpio_a_handler_in_range (level : Z) (s : rotation_sensor_struct) :
  0 < count_max <= INT_MAX -> count_max + 1 < 2 ^ (long_bits - 1) ->
  0 <= value s <= count_max ->
  exists s' k, gpio_a_handler 1 level s = Some (s', IRQ_HANDLED) /\
    0 <= value s' <= count_max /\ spinlock s' = false /\
    value s' = value s + (if level =? 0 then -1 else 1) + k * count_max.
Proof.
  intros [Hm Hi] Hover Hv. unfold gpio_a_handler.
  set (s1 := edge_step level (spin_lock s)).
  assert (Hv1 : value s1 = value s + (if level =? 0 then -1 else 1)).
  { subst s1. unfold edge_step. destruct (level =? 0); simpl;
      apply long_wrap_small; unfold in_long, in_signed; lia. }
  assert (Hin1 : in_long (value s1)).
  { rewrite Hv1. unfold in_long, in_signed. destruct (level =? 0); lia. }
  destruct (while_above_run 1 s1 Hm Hin1) as (s2 & k & E2 & _ & Hk & Hv2 & Hk0 & Hr).
  { rewrite Hv1. destruct (level =? 0); simpl; lia. }
  assert (Hin2 : in_long (value s2)).
  { unfold in_long, in_signed in *. nia. }
  assert (Hs2 : -1 <= value s2 <= count_max).
  { destruct (Z_le_gt_dec (value s1) count_max) as [Hs|Hs].
    - specialize (Hk0 Hs). subst k. destruct (level =? 0); lia.
    - specialize (Hr ltac:(lia)). lia. }
  destruct (while_below_run 1 s2 Hm Hi Hin2) as (s3 & k' & E3 & _ & Hk' & Hv3 & Hk0' & Hr').
  { simpl. lia. }
  exists (spin_unlock s3), (k' - k). rewrite E2, E3. simpl.
  split; [reflexivity|]. split; [|split; [reflexivity|]].
  - destruct (Z_lt_ge_dec (value s2) 0) as [Hs|Hs]; [specialize (Hr' Hs); lia|].
    specialize (Hk0' ltac:(lia)). subst k'. lia.
  - rewrite Hv3, <- Hv1. lia.
Qed.

Lemma irq_events_in_range (levels : list Z) :
  0 < count_max <= INT_MAX -> count_max + 1 < 2 ^ (long_bits - 1) ->
  forall s, 0 <= value s <= count_max ->
  exists s' k, irq_events 1 levels s = Some s' /\
    0 <= value s' <= count_max /\
    value s' = value s + signed_sum levels + k * count_max.
Proof.
  intros Hm Hover. induction levels as [|level rest IH]; intros s Hv.
  - exists s, 0. simpl. repeat split; lia.
  - destruct (gpio_a_handler_in_range level s Hm Hover Hv) as (s1 & k1 & E1 & Hv1 & _ & Hs1).
    destruct (IH s1 Hv1) as (s2 & k2 & E2 & Hv2 & Hs2).
    exists s2, (k1 + k2). simpl. rewrite E1. split; [assumption|].
    split; [assumption|]. rewrite Hs2, Hs1. lia.
Qed.

Lemma irq_events_returns (levels : list Z) :
  0 < count_max <= INT_MAX ->
  forall s, in_long (value s) ->
  exists fuel s', irq_events fuel levels s = Some s' /\
    (levels <> [] -> 0 <= value s' <= count_max).
Proof.
  intros Hm. pose proof long_half_ge as Hh.
  induction levels as [|level rest IH]; intros s Hin.
  - exists O, s. split; [reflexivity|]. intros H; contradiction.
  - destruct (gpio_a_handler_returns level s Hm Hin) as (f1 & s1 & E1 & Hv1 & _).
    assert (Hin1 : in_long (value s1)).
    { unfold in_long, in_signed, INT_MAX in *. lia. }
    destruct (IH s1 Hin1) as (f2 & s2 & E2 & Hv2).
    exists (Nat.max f1 f2), s2. simpl.
    rewrite (gpio_a_handler_fuel_mono f1 _ level s _ E1 (Nat.le_max_l f1 f2)).
    split.
    + apply (irq_events_fuel_mono f2); [assumption|apply Nat.le_max_r].
    + intros _. destruct rest as [|l rest'].
      * simpl in E2. inversion E2; subst. assumption.
      * apply Hv2. discriminate.
Qed.

(** ** [sscanf] against the specification's leading integer *)

Lemma uwrap_long_64 (x : Z) : uwrap long_bits (uwrap 64 x) = uwrap long_bits x.
Proof.
  unfold uwrap. apply Z.mod_mod_divide.
  destruct long_ok; subst; [exists (2 ^ 32)|exists 1]; reflexivity.
Qed.

Lemma strtol_positive (x : Z) :
  long_wrap (uwrap long_bits (uwrap 64 x)) = long_wrap x.
Proof.
  rewrite uwrap_long_64. apply wrap_uwrap.
Qed.

Lemma strtol_negative (x : Z) :
  long_wrap (uwrap long_bits (- uwrap long_bits (uwrap 64 x))) = long_wrap (- x).
Proof.
  rewrite uwrap_long_64, uwrap_neg. apply wrap_uwrap.
Qed.

Lemma simple_strtoul_digits (ds rest : list ascii) :
  forallb isdigit ds = true -> isdigit (hd NUL rest) = false ->
  simple_strtoul (ds ++ rest) = uwrap long_bits (uwrap 64 (decimal_value ds)).
Proof.
  intros Hds Hrest. unfold simple_strtoul, simple_strtoull, decimal_value.
  change 0 with (uwrap 64 0) at 1.
  rewrite parse_integer_value by assumption. reflexivity.
Qed.

(** A text of the specification's shape is converted, to the number it
    denotes reduced to a [long]. *)
Lemma sscanf_ld_decomposed (ws : list ascii) (neg : bool) (ds rest : list ascii) :
  forallb isspace ws = true -> ds <> [] -> forallb isdigit ds = true ->
  isdigit (hd NUL rest) = false ->
  sscanf_ld (ws ++ (if neg then [minus_sign] else []) ++ ds ++ rest) =
  Some (long_wrap (if neg then - decimal_value ds else decimal_value ds)).
Proof.
  intros Hws Hne Hds Hrest.
  destruct ds as [|d ds]; [contradiction|].
  pose proof Hds as Hd. simpl in Hd. apply andb_true_iff in Hd. destruct Hd as [Hd _].
  unfold sscanf_ld.
  destruct (ws ++ (if neg then [minus_sign] else []) ++ (d :: ds) ++ rest) eqn:Etext.
  { destruct ws; destruct neg; discriminate. }
  rewrite <- Etext. rewrite skip_spaces_app by assumption.
  destruct neg.
  - change ([minus_sign] ++ (d :: ds) ++ rest) with (minus_sign :: (d :: ds) ++ rest).
    rewrite skip_spaces_head by reflexivity.
    change (code minus_sign =? 45) with true. cbv iota.
    change (hd NUL ((d :: ds) ++ rest)) with d. rewrite Hd.
    unfold simple_strtol.
    change (code minus_sign =? 45) with true. cbv iota.
    rewrite simple_strtoul_digits by assumption.
    rewrite strtol_negative. reflexivity.
  - change ([] ++ (d :: ds) ++ rest) with (d :: ds ++ rest).
    rewrite skip_spaces_head by (apply isdigit_not_space; assumption).
    rewrite (isdigit_not_minus d Hd), Hd.
    unfold simple_strtol. rewrite (isdigit_not_minus d Hd).
    change (d :: ds ++ rest) with ((d :: ds) ++ rest).
    rewrite simple_strtoul_digits by assumption.
    rewrite strtol_positive. reflexivity.
Qed.

(** Whatever [sscanf] converts has the specification's shape. *)
Lemma sscanf_ld_shape (text : list ascii) (v : Z) :
  sscanf_ld text = Some v -> exists n, spec_leading_integer text n.
Proof.
  unfold sscanf_ld, spec_leading_integer.
  destruct text as [|t text]; [discriminate|].
  destruct (skip_spaces_split (t :: text)) as (ws & Hsplit & Hws).
  destruct (skip_spaces (t :: text)) as [|c str] eqn:Estr.
  { change (isdigit NUL) with false. discriminate. }
  destruct (code c =? 45) eqn:Ec.
  - destruct (isdigit (hd NUL str)) eqn:Ed; [|discriminate]. intros _.
    destruct (digit_run_split str) as (H1 & H2 & H3).
    exists (- decimal_value (digit_run str)), ws, true, (digit_run str), (after_digits str).
    assert (c = minus_sign) as -> by (apply (code_inj c 45); lia).
    repeat split; try assumption.
    + rewrite <- H1. exact Hsplit.
    + destruct str as [|d str]; [discriminate|]. simpl in *. rewrite Ed. discriminate.
  - destruct (isdigit c) eqn:Ed; [|discriminate]. intros _.
    destruct (digit_run_split (c :: str)) as (H1 & H2 & H3).
    exists (decimal_value (digit_run (c :: str))), ws, false,
      (digit_run (c :: str)), (after_digits (c :: str)).
    repeat split; try assumption.
    + rewrite app_nil_l, <- H1. exact Hsplit.
    + simpl. rewrite Ed. discriminate.
Qed.

(** [sscanf] makes its conversion exactly on the texts that start with a
    signed decimal integer, and stores that integer, reduced to a [long]. *)
Lemma sscanf_ld_refines (text : list ascii) (v : Z) :
  sscanf_ld text = Some v <->
  exists n, spec_leading_integer text n /\ v = long_wrap n.
Proof.
  split.
  - intros H. destruct (sscanf_ld_shape text v H) as (n & Hn).
    exists n. split; [assumption|].
    destruct Hn as (ws & neg & ds & rest & -> & Hws & Hne & Hds & Hrest & ->).
    rewrite sscanf_ld_decomposed in H by assumption. congruence.
  - intros (n & (ws & neg & ds & rest & -> & Hws & Hne & Hds & Hrest & ->) & ->).
    apply sscanf_ld_decomposed; assumption.
Qed.

Lemma sscanf_ld_none (text : list ascii) :
  sscanf_ld text = None <-> ~ exists n, spec_leading_integer text n.
Proof.
  split.
  - intros H (n & Hn).
    assert (sscanf_ld text = Some (long_wrap n)) as E
      by (apply sscanf_ld_refines; exists n; split; [assumption|reflexivity]).
    congruence.
  - intros H. destruct (sscanf_ld text) as [v|] eqn:E; [|reflexivity].
    exfalso. apply H. apply (sscanf_ld_shape text v E).
Qed.

(** ** Reading *)

Lemma long_half_big : 2147483648 <= 2 ^ (long_bits - 1).
Proof. exact long_half_ge. Qed.

Lemma long_half_small : 2 ^ (long_bits - 1) <= 9223372036854775808.
Proof. destruct long_ok; subst; vm_compute; discriminate. Qed.

Lemma uwrap_long_small (x : Z) : 0 <= x < 2147483648 -> uwrap long_bits x = x.
Proof.
  intros H. unfold uwrap. apply Z.mod_small.
  pose proof long_half_big. rewrite (pow2_split long_bits long_bits_pos). lia.
Qed.

Lemma format_angle_length (v : Z) : (length (format_angle v) <= 63)%nat.
Proof. apply snprintf_angle_length. Qed.

(** A read whose cursor lies inside the string, or at its end. *)
Lemma read_within (e : read_env) (s : rotation_sensor_struct) (c off : Z) :
  copy_to_user e = 0 -> 0 <= c < 2 ^ long_bits ->
  0 <= off <= Z.of_nat (length (format_angle (value s))) ->
  let r := rotation_sensor_read e s c off in
  read_ret r = Z.min c (Z.of_nat (length (format_angle (value s))) - off) /\
  read_user r = firstn (Z.to_nat (read_ret r))
                  (skipn (Z.to_nat off) (format_angle (value s))) /\
  read_pos r = off + read_ret r.
Proof.
  intros He Hc Hoff. unfold rotation_sensor_read.
  pose proof (format_angle_length (value s)) as Hlen.
  set (kbuffer := format_angle (value s)) in *.
  set (len := Z.of_nat (length kbuffer)) in *.
  assert (Hl : 0 <= len <= 63) by lia.
  rewrite (wrap_int_small len) by lia.
  rewrite (wrap_loff_small (len - off)) by lia.
  rewrite (wrap_int_small (len - off)) by lia.
  destruct (len - off <=? 0) eqn:E0; cbv zeta.
  - simpl. rewrite Z.min_r by lia.
    replace (len - off) with 0 by lia. simpl. repeat split; lia.
  - rewrite (uwrap_long_small (len - off)) by lia. rewrite He. simpl (0 =? 0). cbv iota.
    assert (Hlg : (if len - off >? c then wrap int_bits c else len - off)
                  = Z.min c (len - off)).
    { destruct (len - off >? c) eqn:E1.
      - rewrite wrap_int_small by lia. lia.
      - lia. }
    rewrite Hlg. simpl.
    set (lg := Z.min c (len - off)).
    assert (Hlg' : 0 <= lg <= len - off) by lia.
    split; [reflexivity|]. split.
    + pose proof (kbuffer_slice kbuffer (stray e) (Z.to_nat off) (Z.to_nat lg)) as Hs.
      rewrite Z2Nat.id in Hs by lia. apply Hs. lia.
    + apply wrap_loff_small. lia.
Qed.

(** ** Writing *)

Lemma in_long_63 (x : Z) : in_long x -> - 2 ^ 63 <= x < 2 ^ 63.
Proof.
  unfold in_long, in_signed. pose proof long_half_small.
  change (2 ^ 63) with 9223372036854775808. lia.
Qed.

Lemma format_ld_decomposed (k : Z) :
  format_ld k = (if k <? 0 then [minus_sign] else []) ++ dec_unsigned (Z.abs k).
Proof.
  unfold format_ld. destruct (k <? 0) eqn:E; simpl.
  - rewrite <- Z.abs_neq by lia. reflexivity.
  - rewrite Z.abs_eq by lia. reflexivity.
Qed.

(** Printing a [long] and scanning it again gives it back. *)
Lemma sscanf_ld_format_ld (k : Z) (rest : list ascii) :
  in_long k -> isdigit (hd NUL rest) = false ->
  sscanf_ld (format_ld k ++ rest) = Some k.
Proof.
  intros Hk Hrest. rewrite format_ld_decomposed, <- app_assoc.
  pose proof (sscanf_ld_decomposed [] (k <? 0) (dec_unsigned (Z.abs k)) rest
                eq_refl (dec_unsigned_nonempty _) (dec_unsigned_digits _) Hrest) as H.
  rewrite app_nil_l in H. rewrite H.
  rewrite dec_unsigned_value by lia. f_equal.
  destruct (k <? 0) eqn:E.
  - rewrite Z.abs_neq by lia. rewrite Z.opp_involutive. apply long_wrap_small; assumption.
  - rewrite Z.abs_eq by lia. apply long_wrap_small; assumption.
Qed.

Lemma format_ld_nonempty (k : Z) : format_ld k <> [].
Proof.
  unfold format_ld. destruct (k <? 0); [discriminate|apply dec_unsigned_nonempty].
Qed.

Lemma kmalloc_nonempty (e : write_env) (buffer : list ascii) :
  buffer <> [] ->
  kmalloc e (Z.of_nat (length buffer)) =
  if kmalloc_ok e then kmalloc_buffer else kmalloc_NULL.
Proof.
  intros H. unfold kmalloc. destruct buffer as [|c rest]; [contradiction|].
  assert (E : (Z.of_nat (length (c :: rest)) =? 0) = false)
    by (apply Z.eqb_neq; simpl length; lia).
  rewrite E. reflexivity.
Qed.

Lemma write_decimal (e : write_env) (s : rotation_sensor_struct) (k : Z) :
  kmalloc_ok e = true -> copy_from_user e = 0 -> stops_scan (beyond e) = true ->
  in_long k ->
  rotation_sensor_write e s (format_ld k) =
  Some {| write_ret := Z.of_nat (length (format_ld k));
          write_sensor := {| value := k; spinlock := false |} |}.
Proof.
  intros Hk Hc Hb Hin. unfold rotation_sensor_write.
  rewrite (kmalloc_nonempty e _ (format_ld_nonempty k)), Hk, Hc. simpl negb. cbv iota.
  rewrite cstr_app by apply format_ld_no_nul.
  rewrite sscanf_ld_format_ld by (try assumption; apply stops_scan_cstr; assumption).
  do 2 f_equal. apply long_wrap_small.
  pose proof (format_ld_length k (in_long_63 k Hin)).
  pose proof long_half_big.
  unfold in_long, in_signed. lia.
Qed.

(** What a write of at least one byte returns: [-ENOMEM] exactly when
    [kmalloc] fails, [-EFAULT] exactly when the copy from the caller fails,
    [-EINVAL] exactly when the text [sscanf] reads (the buffer and what
    lies behind it, up to the first NUL) starts with no signed decimal
    integer.  A failure leaves the sensor as it was; otherwise the counter
    is overwritten with the integer, reduced to a [long], and the input
    length is returned. *)
Lemma write_outcomes (e : write_env) (s : rotation_sensor_struct) (buffer : list ascii) :
  buffer <> [] ->
  Z.of_nat (length buffer) <= INT_MAX ->
  exists r, rotation_sensor_write e s buffer = Some r /\
  (write_ret r = - ENOMEM <-> kmalloc_ok e = false) /\
  (write_ret r = - EFAULT <-> kmalloc_ok e = true /\ copy_from_user e <> 0) /\
  (write_ret r = - EINVAL <->
     kmalloc_ok e = true /\ copy_from_user e = 0 /\
     ~ exists n, spec_leading_integer (cstr (buffer ++ beyond e)) n) /\
  (write_ret r < 0 -> write_sensor r = s) /\
  (0 <= write_ret r ->
     exists n, spec_leading_integer (cstr (buffer ++ beyond e)) n /\
       write_sensor r = {| value := long_wrap n; spinlock := false |} /\
       write_ret r = Z.of_nat (length buffer)).
Proof.
  intros Hne Hlen.
  assert (Hret : long_wrap (Z.of_nat (length buffer)) = Z.of_nat (length buffer)).
  { apply long_wrap_small. pose proof long_half_ge.
    unfold in_long, in_signed, INT_MAX in *. lia. }
  unfold rotation_sensor_write. rewrite (kmalloc_nonempty e buffer Hne).
  destruct (kmalloc_ok e) eqn:Ek.
  2: { eexists. split; [reflexivity|].
       unfold ENOMEM, EFAULT, EINVAL. simpl.
       conjuncts;
         intuition (try discriminate; try lia). }
  destruct (copy_from_user e =? 0) eqn:Ec; simpl negb; cbv iota.
  2: { eexists. split; [reflexivity|].
       unfold ENOMEM, EFAULT, EINVAL. simpl.
       conjuncts;
         intuition (try discriminate; try lia). }
  destruct (sscanf_ld (cstr (buffer ++ beyond e))) as [v|] eqn:Es.
  - apply sscanf_ld_refines in Es. destruct Es as (n & Hn & ->).
    eexists. split; [reflexivity|].
    unfold ENOMEM, EFAULT, EINVAL. simpl. rewrite Hret.
    conjuncts.
    + intuition (try discriminate; try lia).
    + intuition (try discriminate; try lia).
    + split; [lia|]. intros (_ & _ & H). exfalso. apply H. exists n. assumption.
    + lia.
    + intros _. exists n. repeat split; assumption.
  - apply sscanf_ld_none in Es.
    eexists. split; [reflexivity|].
    unfold ENOMEM, EFAULT, EINVAL. simpl.
    conjuncts.
    + intuition (try discriminate; try lia).
    + intuition (try discriminate; try lia).
    + split; [intros _|reflexivity]. repeat split; try reflexivity; try lia. assumption.
    + reflexivity.
    + lia.
Qed.

(** ** The handler in closed form *)

Lemma gpio_a_handler_closed_form (level : Z) (s : rotation_sensor_struct) :
  0 < count_max <= INT_MAX -> in_long (value s) ->
  exists fuel, gpio_a_handler fuel level s =
    Some ({| value := handler_value level (value s); spinlock := false |}, IRQ_HANDLED).
Proof.
  intros [Hm Hi] Hin. unfold gpio_a_handler, handler_value.
  set (s1 := edge_step level (spin_lock s)).
  pose proof (edge_step_in_long level (spin_lock s)) as Hin1. fold s1 in Hin1.
  assert (Hv1 : (if level =? 0 then long_wrap (value s - 1) else long_wrap (value s + 1))
                = value s1).
  { subst s1. unfold edge_step. destruct (level =? 0); reflexivity. }
  rewrite Hv1.
  set (n := Z.to_nat (Z.abs (value s1))).
  destruct (while_above_run n s1 Hm Hin1) as (s2 & k & E2 & _ & Hk & Hv & Hk0 & Hr).
  { subst n. rewrite Z2Nat.id by lia. nia. }
  assert (Hin2 : in_long (value s2)).
  { unfold in_long, in_signed in *. nia. }
  destruct (while_below_run n s2 Hm Hi Hin2) as (s3 & k' & E3 & _ & Hk' & Hv' & Hk0' & Hr').
  { subst n. rewrite Z2Nat.id by lia.
    destruct (Z_le_gt_dec (value s1) count_max) as [Hs|Hs].
    - specialize (Hk0 Hs). subst k. nia.
    - specialize (Hr ltac:(lia)). nia. }
  exists n. rewrite E2, E3. unfold spin_unlock. do 2 f_equal. f_equal.
  destruct (value s1 >? count_max) eqn:Ea.
  - specialize (Hr ltac:(lia)). specialize (Hk0' ltac:(lia)). subst k'.
    replace (value s1 - 1) with ((value s2 - 1) + k * count_max) by lia.
    rewrite Z.mod_add by lia. rewrite Z.mod_small by lia. lia.
  - specialize (Hk0 ltac:(lia)). subst k.
    destruct (value s1 <? 0) eqn:Eb.
    + specialize (Hr' ltac:(lia)).
      replace (value s1) with (value s3 + (- k') * count_max) by lia.
      rewrite Z.mod_add by lia. rewrite Z.mod_small by lia. reflexivity.
    + specialize (Hk0' ltac:(lia)). subst k'. lia.
Qed.

(** The result of the handler does not depend on the fuel that suffices. *)
Lemma gpio_a_handler_deterministic (n m : nat) (level : Z) (s : rotation_sensor_struct) r r' :
  gpio_a_handler n level s = Some r -> gpio_a_handler m level s = Some r' -> r = r'.
Proof.
  intros H H'.
  pose proof (gpio_a_handler_fuel_mono n (Nat.max n m) level s r H (Nat.le_max_l n m)) as E.
  pose proof (gpio_a_handler_fuel_mono m (Nat.max n m) level s r' H' (Nat.le_max_r n m)) as E'.
  congruence.
Qed.

(** A read from the start with room for the whole string. *)
Lemma read_full (e : read_env) (s : rotation_sensor_struct) (c : Z) :
  copy_to_user e = 0 ->
  Z.of_nat (length (format_angle (value s))) <= c < 2 ^ long_bits ->
  let r := rotation_sensor_read e s c 0 in
  read_ret r = Z.of_nat (length (format_angle (value s))) /\
  read_user r = format_angle (value s) /\
  read_pos r = Z.of_nat (length (format_angle (value s))).
Proof.
  intros He Hc.
  destruct (read_within e s c 0 He ltac:(lia) ltac:(lia)) as (H1 & H2 & H3).
  rewrite Z.sub_0_r, Z.min_r in H1 by lia.
  cbv zeta. rewrite H2, H3, H1. repeat split.
  rewrite Nat2Z.id. simpl skipn. apply firstn_all.
Qed.

(** A read whose cursor is at or behind the end of the string, but less
    than [2 ^ 31] behind it, reports the end of the stream. *)
Lemma read_eof (e : read_env) (s : rotation_sensor_struct) (c off : Z) :
  Z.of_nat (length (format_angle (value s))) <= off
    <= Z.of_nat (length (format_angle (value s))) + 2147483648 ->
  rotation_sensor_read e s c off =
  {| read_ret := 0; read_user := []; read_pos := off |}.
Proof.
  intros Hoff. unfold rotation_sensor_read.
  pose proof (format_angle_length (value s)) as Hlen.
  set (len := Z.of_nat (length (format_angle (value s)))) in *.
  rewrite (wrap_int_small len) by lia.
  rewrite (wrap_loff_small (len - off)) by lia.
  rewrite (wrap_int_small (len - off)) by lia.
  assert (E : (len - off <=? 0) = true) by lia.
  rewrite E. reflexivity.
Qed.

(** A counter whose angle computation stays inside [long] is formatted as
    the specification's angle string: nothing wraps, nothing is cut. *)
Lemma format_angle_spec (k : Z) :
  0 < count_max -> in_long (k * 3600) ->
  format_angle k = spec_angle_text count_max k.
Proof.
  intros Hm Hin. unfold format_angle, angle_of, spec_angle_text, snprintf_angle.
  rewrite (long_wrap_small (k * 3600)) by assumption.
  destruct (quot_rem_abs (k * 3600) count_max Hm) as [Hq _].
  destruct (quot_sign (k * 3600) count_max Hm) as [Hpos Hneg].
  assert (Hinq : in_long (Z.quot (k * 3600) count_max)).
  { unfold in_long, in_signed in *. lia. }
  rewrite (long_wrap_small _ Hinq).
  set (angle := Z.quot (k * 3600) count_max) in *.
  apply firstn_all2.
  destruct (quot_rem_abs angle 10 ltac:(lia)) as [Hq10 Hr10].
  destruct (quot_sign angle 10 ltac:(lia)) as [Hpos10 Hneg10].
  pose proof (in_long_63 angle Hinq) as H63.
  change (2 ^ 63) with 9223372036854775808 in H63.
  pose proof (format_ld_length (Z.quot angle 10)) as L1.
  pose proof (format_ld_length (Z.rem angle 10)) as L2.
  change (2 ^ 63) with 9223372036854775808 in L1, L2.
  specialize (L1 ltac:(lia)). specialize (L2 ltac:(lia)).
  rewrite length_app. simpl length. rewrite length_app. simpl length. lia.
Qed.

End DriverFacts.

(** ** Module initialisation *)

(** When every call succeeds the module holds its four resources. *)
Lemma rotation_sensor_init_success (gpio_a gpio_b : Z) (e : init_env) :
  gpio_request_a e = 0 -> gpio_request_b e = 0 ->
  gpio_direction_input_a e = 0 -> gpio_direction_input_b e = 0 ->
  request_irq e = 0 -> misc_register e = 0 ->
  init_ret (rotation_sensor_init gpio_a gpio_b e boot) = 0 /\
  held (init_kernel (rotation_sensor_init gpio_a gpio_b e boot)) =
    [MiscDevice; IrqHandler gpio_a; GpioLine gpio_b; GpioLine gpio_a].
Proof.
  intros H1 H2 H3 H4 H5 H6. unfold rotation_sensor_init.
  rewrite H1, H2, H3, H4, H5, H6. simpl. split; reflexivity.
Qed.

(** A refused line or a refused interrupt aborts the start with that
    error, and what was acquired before is released, the latest first. *)
Lemma rotation_sensor_init_rollback (gpio_a gpio_b : Z) (e : init_env) :
  (gpio_request_a e <> 0 ->
     rotation_sensor_init gpio_a gpio_b e boot =
     {| init_ret := gpio_request_a e; init_kernel := boot;
        init_sensor := {| value := 0; spinlock := false |} |}) /\
  (gpio_request_a e = 0 -> gpio_request_b e <> 0 ->
     rotation_sensor_init gpio_a gpio_b e boot =
     {| init_ret := gpio_request_b e;
        init_kernel := {| held := [];
                          history := [Acquired (GpioLine gpio_a);
                                      Released (GpioLine gpio_a)] |};
        init_sensor := {| value := 0; spinlock := false |} |}) /\
  (gpio_request_a e = 0 -> gpio_request_b e = 0 ->
   gpio_direction_input_a e = 0 -> gpio_direction_input_b e = 0 ->
   request_irq e <> 0 ->
     rotation_sensor_init gpio_a gpio_b e boot =
     {| init_ret := request_irq e;
        init_kernel := {| held := [];
                          history := [Acquired (GpioLine gpio_a);
                                      Acquired (GpioLine gpio_b);
                                      Released (GpioLine gpio_b);
                                      Released (GpioLine gpio_a)] |};
        init_sensor := {| value := 0; spinlock := false |} |}).
Proof.
  unfold rotation_sensor_init, gpio_free, release, acquire, boot.
  repeat split.
  - intros H. apply Z.eqb_neq in H. rewrite H. reflexivity.
  - intros H1 H2. apply Z.eqb_neq in H2. rewrite H1, H2. simpl.
    rewrite Z.eqb_refl. reflexivity.
  - intros H1 H2 H3 H4 H5. apply Z.eqb_neq in H5.
    rewrite H1, H2, H3, H4, H5. repeat (simpl; rewrite ?Z.eqb_refl). reflexivity.
Qed.

(** A line that cannot be made an input ends the start with both lines
    released, and with the return value 0 left in [err] by the last
    request. *)
Lemma rotation_sensor_init_direction_failure (gpio_a gpio_b : Z) (e : init_env) :
  gpio_request_a e = 0 -> gpio_request_b e = 0 ->
  gpio_direction_input_a e <> 0 \/ gpio_direction_input_b e <> 0 ->
  init_ret (rotation_sensor_init gpio_a gpio_b e boot) = 0 /\
  held (init_kernel (rotation_sensor_init gpio_a gpio_b e boot)) = [].
Proof.
  intros H1 H2 H3. unfold rotation_sensor_init. rewrite H1, H2. simpl.
  assert (E : negb (gpio_direction_input_a e =? 0)
              || negb (gpio_direction_input_b e =? 0) = true).
  { apply orb_true_iff. destruct H3 as [H|H]; [left|right];
      apply negb_true_iff, Z.eqb_neq; assumption. }
  rewrite E. simpl. rewrite !Z.eqb_refl. simpl. rewrite Z.eqb_refl.
  split; reflexivity.
Qed.

(** A refused device registration is returned as it is: the interrupt
    handler and both lines stay held. *)
Lemma rotation_sensor_init_misc_failure (gpio_a gpio_b : Z) (e : init_env) :
  gpio_request_a e = 0 -> gpio_request_b e = 0 ->
  gpio_direction_input_a e = 0 -> gpio_direction_input_b e = 0 ->
  request_irq e = 0 -> misc_register e <> 0 ->
  init_ret (rotation_sensor_init gpio_a gpio_b e boot) = misc_register e /\
  held (init_kernel (rotation_sensor_init gpio_a gpio_b e boot)) =
    [IrqHandler gpio_a; GpioLine gpio_b; GpioLine gpio_a].
Proof.
  intros H1 H2 H3 H4 H5 H6. unfold rotation_sensor_init.
  apply Z.eqb_neq in H6. rewrite H1, H2, H3, H4, H5, H6. simpl.
  split; reflexivity.
Qed.

(** Leaving a running module releases the four resources, the latest
    first. *)
Lemma rotation_sensor_exit_releases (gpio_a gpio_b : Z) (k : kernel) :
  held k = [MiscDevice; IrqHandler gpio_a; GpioLine gpio_b; GpioLine gpio_a] ->
  rotation_sensor_exit gpio_a gpio_b k =
  {| held := [];
     history := history k ++ [Released MiscDevice; Released (IrqHandler gpio_a);
                              Released (GpioLine gpio_b); Released (GpioLine gpio_a)] |}.
Proof.
  intros H. unfold rotation_sensor_exit, gpio_free, release. simpl. rewrite H.
  repeat (simpl; rewrite ?Z.eqb_refl). rewrite <- !app_assoc. reflexivity.
Qed.

(** ** The two contexts side by side *)

Section SmpFacts.

Variable long_bits : Z.
Variable count_max : Z.
Variable level : Z.

Local Abbreviation step := (Smp.step long_bits count_max level).
Local Abbreviation run := (Smp.run long_bits count_max level).

Lemma smp_run_app (a b : list Smp.context) (c : Smp.config) :
  run (a ++ b) c = match run a c with Some c' => run b c' | None => None end.
Proof.
  revert c. induction a as [|who a IH]; intros c; simpl.
  - reflexivity.
  - destruct (step who c); [apply IH|reflexivity].
Qed.

(** Mutual exclusion: every step keeps the lock discipline. *)
Lemma smp_step_invariant (who : Smp.context) (c c' : Smp.config) :
  Smp.lock_invariant c -> step who c = Some c' -> Smp.lock_invariant c'.
Proof.
  destruct c as [[v l] hp rp a kb].
  unfold Smp.lock_invariant, Smp.handler_in_section, Smp.reader_in_section.
  simpl. intros [Hl Hx] H.
  destruct who; simpl in H;
    [unfold Smp.step_edge in H | unfold Smp.step_request in H]; simpl in H;
    destruct hp; destruct rp; simpl in *; subst l; simpl in *;
    try discriminate;
    unfold edge_step in H; simpl in H;
    repeat match type of H with
           | context [if ?b then _ else _] => destruct b
           end;
    inversion H; subst; simpl; split; reflexivity.
Qed.

Lemma smp_run_invariant (schedule : list Smp.context) :
  forall c c', Smp.lock_invariant c -> run schedule c = Some c' -> Smp.lock_invariant c'.
Proof.
  induction schedule as [|who rest IH]; intros c c' Hc H; simpl in H.
  - inversion H; subst. assumption.
  - destruct (step who c) as [c1|] eqn:E; [|discriminate].
    apply (IH c1); [|assumption]. apply (smp_step_invariant who c); assumption.
Qed.

(** Whatever the schedule, the handler's three steps run with the lock
    held and the reader outside its own locked section. *)
Lemma smp_handler_section_exclusive (schedule : list Smp.context) (v : Z) (c : Smp.config) :
  run schedule (Smp.start v) = Some c ->
  Smp.handler_in_section c = true ->
  spinlock (Smp.sensor c) = true /\ Smp.reader_in_section c = false.
Proof.
  intros H Hh.
  assert (Hs : Smp.lock_invariant (Smp.start v)) by (split; reflexivity).
  destruct (smp_run_invariant schedule _ _ Hs H) as [Hl Hx].
  rewrite Hh in *. simpl in *. split; assumption.
Qed.

(** The reader alone: four statements leave the formatted counter in its
    buffer. *)
Lemma smp_reader_alone (s : rotation_sensor_struct) (hp : Smp.handler_pc) :
  spinlock s = false ->
  run [Smp.Request; Smp.Request; Smp.Request; Smp.Request]
    {| Smp.sensor := s; Smp.h_pc := hp; Smp.r_pc := Smp.R_angle;
       Smp.r_angle := 0; Smp.r_kbuffer := [] |} =
  Some {| Smp.sensor := s; Smp.h_pc := hp; Smp.r_pc := Smp.R_strlen;
          Smp.r_angle := angle_of long_bits count_max (value s);
          Smp.r_kbuffer := format_angle long_bits count_max (value s) |}.
Proof.
  destruct s as [v l]. simpl. intros ->. reflexivity.
Qed.

(** The handler alone: statement by statement it computes what
    [gpio_a_handler] returns. *)
Lemma smp_while_above (fuel : nat) :
  forall c s', Smp.h_pc c = Smp.H_while_above ->
    while_above long_bits count_max fuel (Smp.sensor c) = Some s' ->
    exists n, run (repeat Smp.Edge n) c =
              Some (Smp.set_h_pc (Smp.set_sensor c s') Smp.H_while_below).
Proof.
  induction fuel as [|fuel IH]; intros c s' Hpc H; simpl in H;
    destruct (value (Smp.sensor c) >? count_max) eqn:E; try discriminate.
  - inversion H; subst. exists 1%nat. simpl. unfold Smp.step_edge.
    rewrite Hpc, E. destruct c; reflexivity.
  - destruct (IH (Smp.set_sensor c (set_value (Smp.sensor c)
                    (long_wrap long_bits (value (Smp.sensor c) - count_max)))) s')
      as (n & Hn); [assumption|assumption|].
    exists (S n). simpl. unfold Smp.step_edge at 1. rewrite Hpc, E.
    rewrite Hn. destruct c; reflexivity.
  - inversion H; subst. exists 1%nat. simpl. unfold Smp.step_edge.
    rewrite Hpc, E. destruct c; reflexivity.
Qed.

Lemma smp_while_below (fuel : nat) :
  forall c s', Smp.h_pc c = Smp.H_while_below ->
    while_below long_bits count_max fuel (Smp.sensor c) = Some s' ->
    exists n, run (repeat Smp.Edge n) c =
              Some (Smp.set_h_pc (Smp.set_sensor c s') Smp.H_spin_unlock).
Proof.
  induction fuel as [|fuel IH]; intros c s' Hpc H; simpl in H;
    destruct (value (Smp.sensor c) <? 0) eqn:E; try discriminate.
  - inversion H; subst. exists 1%nat. simpl. unfold Smp.step_edge.
    rewrite Hpc, E. destruct c; reflexivity.
  - destruct (IH (Smp.set_sensor c (set_value (Smp.sensor c)
                    (long_wrap long_bits (value (Smp.sensor c) + count_max)))) s')
      as (n & Hn); [assumption|assumption|].
    exists (S n). simpl. unfold Smp.step_edge at 1. rewrite Hpc, E.
    rewrite Hn. destruct c; reflexivity.
  - inversion H; subst. exists 1%nat. simpl. unfold Smp.step_edge.
    rewrite Hpc, E. destruct c; reflexivity.
Qed.

Lemma smp_handler_alone (fuel : nat) (c : Smp.config) (s' : rotation_sensor_struct)
    (i : irqreturn_t) :
  Smp.h_pc c = Smp.H_spin_lock -> spinlock (Smp.sensor c) = false ->
  gpio_a_handler long_bits count_max fuel level (Smp.sensor c) = Some (s', i) ->
  exists n, run (repeat Smp.Edge n) c =
            Some (Smp.set_h_pc (Smp.set_sensor c s') Smp.H_return).
Proof.
  intros Hpc Hl H. unfold gpio_a_handler in H.
  destruct (while_above long_bits count_max fuel _) as [s1|] eqn:E1; [|discriminate].
  destruct (while_below long_bits count_max fuel s1) as [s2|] eqn:E2; [|discriminate].
  inversion H; subst. clear H.
  set (c1 := Smp.set_h_pc (Smp.set_sensor c
               (edge_step long_bits level (spin_lock (Smp.sensor c)))) Smp.H_while_above).
  destruct (smp_while_above fuel c1 s1 eq_refl E1) as (n1 & Hn1).
  destruct (smp_while_below fuel (Smp.set_h_pc (Smp.set_sensor c1 s1) Smp.H_while_below)
              s2 eq_refl E2) as (n2 & Hn2).
  assert (H2 : run (repeat Smp.Edge 2) c = Some c1).
  { simpl. unfold Smp.step_edge at 1. rewrite Hpc, Hl.
    unfold Smp.step_edge. simpl. subst c1. destruct c; reflexivity. }
  exists (2 + (n1 + (n2 + 1)))%nat.
  replace (repeat Smp.Edge (2 + (n1 + (n2 + 1))))
    with (repeat Smp.Edge 2 ++ repeat Smp.Edge n1 ++ repeat Smp.Edge n2
          ++ repeat Smp.Edge 1)
    by (rewrite <- !repeat_app; reflexivity).
  rewrite smp_run_app, H2, smp_run_app, Hn1, smp_run_app, Hn2.
  simpl. unfold Smp.step_edge. simpl.
  subst c1. destruct c; reflexivity.
Qed.

End SmpFacts.

(** * The edge handler: range, termination, result *)

(** C10.  For every starting counter value a [long] can hold, also one far
    out of range, and every positive [count_max], one call of the edge
    handler returns and leaves the counter in the closed interval
    [0 .. count_max].  The upper bound is reached (from [count_max - 1] with
    channel B high) and the first loop leaves it alone instead of reducing
    it to 0.  Every further call keeps the counter in the interval. *)
Theorem handler_closed_interval (long_bits count_max level : Z)
    (s : rotation_sensor_struct) :
  long_bits = 32 \/ long_bits = 64 ->
  0 < count_max <= INT_MAX ->
  in_long long_bits (value s) ->
  (exists fuel s',
      gpio_a_handler long_bits count_max fuel level s = Some (s', IRQ_HANDLED) /\
      0 <= value s' <= count_max) /\
  (forall fuel,
      gpio_a_handler long_bits count_max fuel 1
        {| value := count_max - 1; spinlock := false |} =
      Some ({| value := count_max; spinlock := false |}, IRQ_HANDLED) /\
      while_above long_bits count_max fuel {| value := count_max; spinlock := true |} =
      Some {| value := count_max; spinlock := true |}) /\
  (forall levels, exists fuel s',
      irq_events long_bits count_max fuel (level :: levels) s = Some s' /\
      0 <= value s' <= count_max).
Proof.
  intros Hlong Hm Hin. split; [|split].
  - destruct (gpio_a_handler_returns long_bits count_max Hlong level s Hm Hin)
      as (fuel & s' & E & Hv & _).
    exists fuel, s'. split; assumption.
  - intros fuel.
    assert (Hw : long_wrap long_bits (count_max - 1 + 1) = count_max).
    { replace (count_max - 1 + 1) with count_max by lia.
      apply (long_wrap_small long_bits Hlong).
      pose proof (long_half_ge long_bits Hlong).
      unfold in_long, in_signed, INT_MAX in *. lia. }
    assert (Ea : (count_max >? count_max) = false) by lia.
    assert (Eb : (count_max <? 0) = false) by lia.
    split.
    + unfold gpio_a_handler, edge_step, spin_lock, set_value. simpl.
      rewrite Hw. destruct fuel; simpl; rewrite Ea; simpl; rewrite Eb; reflexivity.
    + destruct fuel; simpl; rewrite Ea; reflexivity.
  - intros levels.
    destruct (irq_events_returns long_bits count_max Hlong (level :: levels) Hm s Hin)
      as (fuel & s' & E & Hv).
    exists fuel, s'. split; [assumption|]. apply Hv. discriminate.
Qed.

Lemma handler_closed_interval_witness :
  (exists fuel s',
      gpio_a_handler 32 5000 fuel 1 {| value := 2147483647; spinlock := false |} =
      Some (s', IRQ_HANDLED) /\ 0 <= value s' <= 5000) /\
  (forall fuel,
      gpio_a_handler 32 5000 fuel 1 {| value := 5000 - 1; spinlock := false |} =
      Some ({| value := 5000; spinlock := false |}, IRQ_HANDLED) /\
      while_above 32 5000 fuel {| value := 5000; spinlock := true |} =
      Some {| value := 5000; spinlock := true |}) /\
  (forall levels, exists fuel s',
      irq_events 32 5000 fuel (1 :: levels) {| value := 2147483647; spinlock := false |} =
      Some s' /\ 0 <= value s' <= 5000).
Proof.
  apply (handler_closed_interval 32 5000 1 {| value := 2147483647; spinlock := false |}).
  - left; reflexivity.
  - unfold INT_MAX; simpl; lia.
  - unfold in_long, in_signed; simpl; lia.
Defined.

(** C9.  In every counter state and for either level of channel B the edge
    handler returns: it yields [IRQ_HANDLED], the lock is free again, and
    the counter holds the stepped and normalised value; nothing else is
    touched.  No call ends otherwise, whatever the fuel. *)
Theorem handler_never_fails (long_bits count_max level : Z)
    (s : rotation_sensor_struct) :
  long_bits = 32 \/ long_bits = 64 ->
  0 < count_max <= INT_MAX ->
  in_long long_bits (value s) ->
  (exists fuel,
      gpio_a_handler long_bits count_max fuel level s =
      Some ({| value := handler_value long_bits count_max level (value s);
               spinlock := false |}, IRQ_HANDLED)) /\
  (forall fuel s' i,
      gpio_a_handler long_bits count_max fuel level s = Some (s', i) ->
      i = IRQ_HANDLED /\
      s' = {| value := handler_value long_bits count_max level (value s);
              spinlock := false |}).
Proof.
  intros Hlong Hm Hin.
  destruct (gpio_a_handler_closed_form long_bits count_max Hlong level s Hm Hin)
    as (fuel & E).
  split.
  - exists fuel. assumption.
  - intros fuel' s' i E'.
    pose proof (gpio_a_handler_deterministic long_bits count_max
                  fuel fuel' level s _ _ E E') as H.
    inversion H; subst. split; reflexivity.
Qed.

Lemma handler_never_fails_witness :
  (exists fuel,
      gpio_a_handler 64 5000 fuel 0 {| value := -12345; spinlock := false |} =
      Some ({| value := handler_value 64 5000 0 (-12345); spinlock := false |},
            IRQ_HANDLED)) /\
  (forall fuel s' i,
      gpio_a_handler 64 5000 fuel 0 {| value := -12345; spinlock := false |} =
      Some (s', i) ->
      i = IRQ_HANDLED /\
      s' = {| value := handler_value 64 5000 0 (-12345); spinlock := false |}).
Proof.
  apply (handler_never_fails 64 5000 0 {| value := -12345; spinlock := false |}).
  - right; reflexivity.
  - unfold INT_MAX; simpl; lia.
  - unfold in_long, in_signed; simpl; lia.
Defined.

(** * The counter over a train of edges *)

(** C1, as the specification words it, fails.  With [count_max] 5000 and
    the counter at 4999, an edge with channel B high leaves 5000, not 0:
    the first loop subtracts only above [count_max].  The read that follows
    returns the line 360.0; and 5000 such edges from 0 end at 5000 although
    their sum is 0 modulo 5000. *)
Lemma wraparound_counterexample :
  gpio_a_handler 64 5000 1 1 {| value := 4999; spinlock := false |} =
    Some ({| value := 5000; spinlock := false |}, IRQ_HANDLED) /\
  ~ (exists fuel s',
       gpio_a_handler 64 5000 fuel 1 {| value := 4999; spinlock := false |} =
         Some (s', IRQ_HANDLED) /\ 0 <= value s' < 5000) /\
  read_user (rotation_sensor_read 64 5000 read_env_ok
               {| value := 5000; spinlock := false |} 64 0) = line "360.0" /\
  line "360.0" <> line "0.0" /\
  irq_events 64 5000 1 (all_high 5000) {| value := 0; spinlock := false |} =
    Some {| value := 5000; spinlock := false |} /\
  signed_sum (all_high 5000) mod 5000 = 0.
Proof.
  assert (H1 : gpio_a_handler 64 5000 1 1 {| value := 4999; spinlock := false |} =
               Some ({| value := 5000; spinlock := false |}, IRQ_HANDLED))
    by (vm_compute; reflexivity).
  split; [exact H1|]. split; [|split; [|split; [|split]]].
  - intros (fuel & s' & E & Hv).
    pose proof (gpio_a_handler_deterministic 64 5000 _ _ _ _ _ _ H1 E) as H.
    inversion H; subst. simpl in Hv. lia.
  - vm_compute; reflexivity.
  - discriminate.
  - vm_compute; reflexivity.
  - vm_compute; reflexivity.
Qed.

(** C1, amended.  From counter 0, after any train of edges with channel-B
    levels L1..Ln, the counter lies in the closed interval [0 .. count_max]
    and is congruent to the signed sum of the levels modulo [count_max]
    (one round of each loop suffices at every edge).  The normalisation of a
    call is: a stepped value above [count_max] is brought into
    [1 .. count_max], a negative one into [0 .. count_max - 1], any other is
    kept.  With [count_max] 5000 and the counter at 4999, one edge with
    channel B high leaves 5000 and the full read that follows returns the
    line 360.0. *)
Theorem edge_events_congruent (long_bits count_max : Z) (levels : list Z) :
  long_bits = 32 \/ long_bits = 64 ->
  0 < count_max <= INT_MAX ->
  count_max + 1 < 2 ^ (long_bits - 1) ->
  (exists s',
      irq_events long_bits count_max 1 levels {| value := 0; spinlock := false |} = Some s' /\
      0 <= value s' <= count_max /\
      value s' mod count_max = signed_sum levels mod count_max) /\
  (forall level s, in_long long_bits (value s) ->
      exists fuel,
        gpio_a_handler long_bits count_max fuel level s =
        Some ({| value := handler_value long_bits count_max level (value s);
                 spinlock := false |}, IRQ_HANDLED)) /\
  (gpio_a_handler long_bits 5000 1 1 {| value := 4999; spinlock := false |} =
     Some ({| value := 5000; spinlock := false |}, IRQ_HANDLED) /\
   forall e c, copy_to_user e = 0 -> 64 <= c < 2 ^ long_bits ->
     read_user (rotation_sensor_read long_bits 5000 e
                  {| value := 5000; spinlock := false |} c 0) = line "360.0").
Proof.
  intros Hlong Hm Hover. split; [|split; [|split]].
  - destruct (irq_events_in_range long_bits count_max Hlong levels Hm Hover
                {| value := 0; spinlock := false |}) as (s' & k & E & Hv & Hs).
    { simpl. lia. }
    exists s'. split; [assumption|]. split; [assumption|].
    rewrite Hs. simpl. apply Z.mod_add. lia.
  - intros level s Hin.
    apply (gpio_a_handler_closed_form long_bits count_max Hlong level s Hm Hin).
  - destruct Hlong; subst; vm_compute; reflexivity.
  - intros e c He Hc.
    assert (Hlen : Z.of_nat (length (format_angle long_bits 5000 5000)) = 6)
      by (destruct Hlong; subst; vm_compute; reflexivity).
    destruct (read_full long_bits 5000 Hlong e {| value := 5000; spinlock := false |} c He)
      as (_ & H & _).
    { simpl value. rewrite Hlen. lia. }
    rewrite H. destruct Hlong; subst; vm_compute; reflexivity.
Qed.

Lemma edge_events_congruent_witness :
  (exists s',
      irq_events 32 5000 1 [1; 0; 0; 1; 0] {| value := 0; spinlock := false |} = Some s' /\
      0 <= value s' <= 5000 /\
      value s' mod 5000 = signed_sum [1; 0; 0; 1; 0] mod 5000) /\
  (forall level s, in_long 32 (value s) ->
      exists fuel,
        gpio_a_handler 32 5000 fuel level s =
        Some ({| value := handler_value 32 5000 level (value s);
                 spinlock := false |}, IRQ_HANDLED)) /\
  (gpio_a_handler 32 5000 1 1 {| value := 4999; spinlock := false |} =
     Some ({| value := 5000; spinlock := false |}, IRQ_HANDLED) /\
   forall e c, copy_to_user e = 0 -> 64 <= c < 2 ^ 32 ->
     read_user (rotation_sensor_read 32 5000 e
                  {| value := 5000; spinlock := false |} c 0) = line "360.0").
Proof.
  apply (edge_events_congruent 32 5000 [1; 0; 0; 1; 0]).
  - left; reflexivity.
  - unfold INT_MAX; simpl; lia.
  - simpl; lia.
Defined.

(** * Reading *)

(** C5.  For every counter state and every cursor not past the end of the
    formatted string, a read with capacity [c] whose copy to the caller
    succeeds returns [min c remaining] bytes, namely those of the string
    from the cursor on, and advances the cursor by that count.  Hence, for
    every split point [a], two reads of capacities [a] and [len - a], the
    second at the cursor the first left, deliver the very bytes of one full
    read. *)
Theorem read_partial (long_bits count_max : Z) (e : read_env)
    (s : rotation_sensor_struct) (c off : Z) :
  long_bits = 32 \/ long_bits = 64 ->
  0 < count_max ->
  copy_to_user e = 0 ->
  0 <= c < 2 ^ long_bits ->
  0 <= off <= Z.of_nat (length (format_angle long_bits count_max (value s))) ->
  (read_ret (rotation_sensor_read long_bits count_max e s c off) =
     Z.min c (Z.of_nat (length (format_angle long_bits count_max (value s))) - off) /\
   read_user (rotation_sensor_read long_bits count_max e s c off) =
     firstn (Z.to_nat (Z.min c
               (Z.of_nat (length (format_angle long_bits count_max (value s))) - off)))
       (skipn (Z.to_nat off) (format_angle long_bits count_max (value s))) /\
   read_pos (rotation_sensor_read long_bits count_max e s c off) =
     off + read_ret (rotation_sensor_read long_bits count_max e s c off)) /\
  (forall a,
     0 <= a <= Z.of_nat (length (format_angle long_bits count_max (value s))) ->
     read_chunks long_bits count_max e s
       [a; Z.of_nat (length (format_angle long_bits count_max (value s))) - a] 0 =
     read_user (rotation_sensor_read long_bits count_max e s
       (Z.of_nat (length (format_angle long_bits count_max (value s)))) 0) /\
     read_user (rotation_sensor_read long_bits count_max e s
       (Z.of_nat (length (format_angle long_bits count_max (value s)))) 0) =
     format_angle long_bits count_max (value s)).
Proof.
  intros Hlong _ He Hc Hoff.
  pose proof (format_angle_length long_bits count_max (value s)) as Hlen.
  pose proof (long_half_big long_bits Hlong) as Hhalf.
  pose proof (pow2_split long_bits (long_bits_pos long_bits Hlong)) as Hpow.
  set (kbuffer := format_angle long_bits count_max (value s)) in *.
  set (len := Z.of_nat (length kbuffer)) in *.
  split.
  - destruct (read_within long_bits count_max Hlong e s c off He Hc Hoff) as (H1 & H2 & H3).
    fold kbuffer in H1, H2. fold len in H1. rewrite <- H1. repeat split; assumption.
  - intros a Ha.
    destruct (read_full long_bits count_max Hlong e s len He) as (_ & Hfull & _).
    { fold kbuffer. fold len. lia. }
    fold kbuffer in Hfull. split; [|exact Hfull]. rewrite Hfull.
    unfold read_chunks.
    destruct (read_within long_bits count_max Hlong e s a 0 He) as (A1 & A2 & A3);
      [lia|fold kbuffer; fold len; lia|].
    fold kbuffer in A1, A2. fold len in A1.
    rewrite Z.sub_0_r, Z.min_l in A1 by lia.
    rewrite A3, A2, A1. simpl skipn. rewrite Z.add_0_l.
    destruct (read_within long_bits count_max Hlong e s (len - a) a He) as (B1 & B2 & _);
      [lia|fold kbuffer; fold len; lia|].
    fold kbuffer in B1, B2. fold len in B1.
    rewrite Z.min_id in B1. rewrite B2, B1, app_nil_r.
    rewrite (firstn_all2 (n := Z.to_nat (len - a))).
    + apply firstn_skipn.
    + rewrite length_skipn. lia.
Qed.

Lemma read_partial_witness :
  (read_ret (rotation_sensor_read 64 5000 read_env_ok
               {| value := 2500; spinlock := false |} 2 1) =
     Z.min 2 (Z.of_nat (length (format_angle 64 5000 2500)) - 1) /\
   read_user (rotation_sensor_read 64 5000 read_env_ok
                {| value := 2500; spinlock := false |} 2 1) =
     firstn (Z.to_nat (Z.min 2 (Z.of_nat (length (format_angle 64 5000 2500)) - 1)))
       (skipn (Z.to_nat 1) (format_angle 64 5000 2500)) /\
   read_pos (rotation_sensor_read 64 5000 read_env_ok
               {| value := 2500; spinlock := false |} 2 1) =
     1 + read_ret (rotation_sensor_read 64 5000 read_env_ok
                     {| value := 2500; spinlock := false |} 2 1)) /\
  (forall a,
     0 <= a <= Z.of_nat (length (format_angle 64 5000 2500)) ->
     read_chunks 64 5000 read_env_ok {| value := 2500; spinlock := false |}
       [a; Z.of_nat (length (format_angle 64 5000 2500)) - a] 0 =
     read_user (rotation_sensor_read 64 5000 read_env_ok
       {| value := 2500; spinlock := false |}
       (Z.of_nat (length (format_angle 64 5000 2500))) 0) /\
     read_user (rotation_sensor_read 64 5000 read_env_ok
       {| value := 2500; spinlock := false |}
       (Z.of_nat (length (format_angle 64 5000 2500))) 0) =
     format_angle 64 5000 2500).
Proof.
  apply (read_partial 64 5000 read_env_ok {| value := 2500; spinlock := false |} 2 1).
  - right; reflexivity.
  - lia.
  - reflexivity.
  - simpl; lia.
  - vm_compute. split; discriminate.
Defined.

(** C7 (a read at an offset at or behind the end of the formatted string
    returns zero bytes, reports no fault and leaves the offset alone) fails
    on the code for offsets far behind the end.  The remaining length is
    narrowed to an [int]: with the offset at [2 ^ 32] the string of four
    bytes has [(int)(4 - 2 ^ 32) = 4] bytes left, so the read does not
    report the end of the stream.  Whatever the environment it returns a
    nonzero value; when the copy succeeds it returns 4 bytes fetched from
    outside the string and advances the offset. *)
Theorem read_far_offset (e : read_env) :
  (read_ret (rotation_sensor_read 64 5000 e {| value := 0; spinlock := false |}
               4 4294967296) =? 0) = false /\
  (read_ret (rotation_sensor_read 32 5000 e {| value := 0; spinlock := false |}
               4 4294967296) =? 0) = false /\
  format_angle 64 5000 0 = line "0.0" /\
  rotation_sensor_read 64 5000 read_env_ok {| value := 0; spinlock := false |}
    4 4294967296 =
  {| read_ret := 4; read_user := [NUL; NUL; NUL; NUL]; read_pos := 4294967300 |}.
Proof.
  repeat split.
  - unfold rotation_sensor_read.
    destruct (copy_to_user e =? 0); vm_compute; reflexivity.
  - unfold rotation_sensor_read.
    destruct (copy_to_user e =? 0); vm_compute; reflexivity.
Qed.

(** * Writing *)

(** C3 (every write either fails with out-of-memory, fault or
    invalid-argument, the last exactly when the input starts with no
    integer, or stores the integer of the input and returns its length)
    fails on the code: the decode buffer holds the [length] bytes and no
    terminating NUL, and is scanned as a C string.  A write of no bytes
    returns none of the three errors: [kmalloc(0)] hands out
    [ZERO_SIZE_PTR], the copy of 0 bytes succeeds and [sscanf] faults on
    its first character, whatever the environment.  A write of some bytes
    is scanned together with what lies behind the buffer: the two bytes 12
    before a 3 store 123, and a lone minus sign before a 5 is accepted and
    stores -5. *)
Theorem write_of_nothing_faults (long_bits : Z) (e : write_env)
    (s : rotation_sensor_struct) :
  rotation_sensor_write long_bits e s [] = None /\
  rotation_sensor_write 64
    {| kmalloc_ok := true; copy_from_user := 0; beyond := bytes "3" |}
    {| value := 7; spinlock := false |} (bytes "12") =
  Some {| write_ret := 2; write_sensor := {| value := 123; spinlock := false |} |} /\
  rotation_sensor_write 64
    {| kmalloc_ok := true; copy_from_user := 0; beyond := bytes "5" |}
    {| value := 7; spinlock := false |} (bytes "-") =
  Some {| write_ret := 1; write_sensor := {| value := -5; spinlock := false |} |}.
Proof.
  repeat split.
Qed.

(** * Writing, then reading *)

(** C4, for every integer [k], fails: the angle is computed in [long].
    On a 32-bit [long], writing 600000 and reading returns the line
    -42699.-3, the specification's string is 43200.0; on a 64-bit [long]
    the same happens at [2 ^ 62], where the read returns 0.0. *)
Lemma write_read_overflow_counterexample :
  rotation_sensor_write 32 write_env_ok {| value := 0; spinlock := false |}
    (format_ld 600000) =
    Some {| write_ret := 6;
            write_sensor := {| value := 600000; spinlock := false |} |} /\
  read_user (rotation_sensor_read 32 5000 read_env_ok
               {| value := 600000; spinlock := false |} 64 0) = line "-42699.-3" /\
  spec_angle_text 5000 600000 = line "43200.0" /\
  read_user (rotation_sensor_read 32 5000 read_env_ok
               {| value := 600000; spinlock := false |} 64 0)
    <> spec_angle_text 5000 600000 /\
  rotation_sensor_write 64 write_env_ok {| value := 0; spinlock := false |}
    (format_ld 4611686018427387904) =
    Some {| write_ret := 19;
            write_sensor := {| value := 4611686018427387904; spinlock := false |} |} /\
  read_user (rotation_sensor_read 64 5000 read_env_ok
               {| value := 4611686018427387904; spinlock := false |} 64 0)
    = line "0.0" /\
  spec_angle_text 5000 4611686018427387904 = line "332041393326771929.0" /\
  read_user (rotation_sensor_read 64 5000 read_env_ok
               {| value := 4611686018427387904; spinlock := false |} 64 0)
    <> spec_angle_text 5000 4611686018427387904.
Proof.
  conjuncts;
    try (vm_compute; reflexivity);
    intros H; vm_compute in H; discriminate.
Qed.

(** C4, amended.  For every integer [k] such that [k] and [k * 3600] fit a
    [long], a write of [k] as its decimal string whose allocation and copy
    succeed and whose number ends with the written bytes stores [k] and
    returns the input length; the full read that follows at once yields
    [(k*3600/count_max)/10], a dot, [(k*3600/count_max)%10] and a newline,
    with truncating division, also when [k] lies outside
    [0 .. count_max): the written value is not normalised. *)
Theorem write_then_read (long_bits count_max k : Z) (we : write_env) (re : read_env)
    (s : rotation_sensor_struct) (c : Z) :
  long_bits = 32 \/ long_bits = 64 ->
  0 < count_max <= INT_MAX ->
  in_long long_bits k ->
  in_long long_bits (k * 3600) ->
  kmalloc_ok we = true -> copy_from_user we = 0 -> stops_scan (beyond we) = true ->
  copy_to_user re = 0 -> 64 <= c < 2 ^ long_bits ->
  rotation_sensor_write long_bits we s (format_ld k) =
    Some {| write_ret := Z.of_nat (length (format_ld k));
            write_sensor := {| value := k; spinlock := false |} |} /\
  read_user (rotation_sensor_read long_bits count_max re
               {| value := k; spinlock := false |} c 0) =
    spec_angle_text count_max k.
Proof.
  intros Hlong [Hm _] Hk Hk' Hka Hco Hst Hcu Hc.
  split; [apply (write_decimal long_bits Hlong we s k Hka Hco Hst Hk)|].
  pose proof (format_angle_length long_bits count_max k) as Hlen.
  destruct (read_full long_bits count_max Hlong re
              {| value := k; spinlock := false |} c Hcu) as (_ & H & _).
  { simpl value. lia. }
  rewrite H. simpl value.
  apply (format_angle_spec long_bits count_max Hlong k Hm Hk').
Qed.

Lemma write_then_read_witness :
  rotation_sensor_write 32 write_env_ok {| value := 17; spinlock := false |}
    (format_ld (-7500)) =
    Some {| write_ret := Z.of_nat (length (format_ld (-7500)));
            write_sensor := {| value := -7500; spinlock := false |} |} /\
  read_user (rotation_sensor_read 32 5000 read_env_ok
               {| value := -7500; spinlock := false |} 64 0) =
    spec_angle_text 5000 (-7500).
Proof.
  apply (write_then_read 32 5000 (-7500) write_env_ok read_env_ok
           {| value := 17; spinlock := false |} 64).
  - left; reflexivity.
  - unfold INT_MAX; simpl; lia.
  - unfold in_long, in_signed; simpl; lia.
  - unfold in_long, in_signed; simpl; lia.
  - reflexivity.
  - reflexivity.
  - reflexivity.
  - reflexivity.
  - simpl; lia.
Defined.

(** * The scenario of the specification *)

(** The scenario where the scan of the written bytes stops at their end:
    with [count_max] 5000 and the counter at 0, ten edges with channel B
    high leave the counter at 10 and a full read returns the line 0.7; a
    write of the four bytes 2500, allocation and copy succeeding and no
    digit lying behind the buffer, sets the counter to 2500 and the next
    full read returns the line 180.0. *)
Lemma scenario_when_scan_stops (long_bits : Z) (re1 re2 : read_env)
    (we : write_env) (c : Z) :
  long_bits = 32 \/ long_bits = 64 ->
  copy_to_user re1 = 0 -> copy_to_user re2 = 0 ->
  kmalloc_ok we = true -> copy_from_user we = 0 -> stops_scan (beyond we) = true ->
  64 <= c < 2 ^ long_bits ->
  irq_events long_bits 5000 1 (all_high 10) {| value := 0; spinlock := false |} =
    Some {| value := 10; spinlock := false |} /\
  Z.quot (10 * 3600) 5000 = 7 /\
  read_user (rotation_sensor_read long_bits 5000 re1
               {| value := 10; spinlock := false |} c 0) = line "0.7" /\
  rotation_sensor_write long_bits we {| value := 10; spinlock := false |} (bytes "2500") =
    Some {| write_ret := 4;
            write_sensor := {| value := 2500; spinlock := false |} |} /\
  Z.quot (2500 * 3600) 5000 = 1800 /\
  read_user (rotation_sensor_read long_bits 5000 re2
               {| value := 2500; spinlock := false |} c 0) = line "180.0".
Proof.
  intros Hlong Hr1 Hr2 Hka Hco Hst Hc.
  assert (Hread : forall re v, copy_to_user re = 0 ->
            read_user (rotation_sensor_read long_bits 5000 re
                         {| value := v; spinlock := false |} c 0) =
            format_angle long_bits 5000 v).
  { intros re v Hre.
    pose proof (format_angle_length long_bits 5000 v) as Hlen.
    destruct (read_full long_bits 5000 Hlong re {| value := v; spinlock := false |} c Hre)
      as (_ & H & _); [simpl value; lia|exact H]. }
  conjuncts.
  - destruct Hlong; subst; vm_compute; reflexivity.
  - reflexivity.
  - rewrite (Hread re1 10 Hr1). destruct Hlong; subst; vm_compute; reflexivity.
  - change (bytes "2500") with (format_ld 2500).
    rewrite (write_decimal long_bits Hlong we _ 2500 Hka Hco Hst); [reflexivity|].
    pose proof (long_half_big long_bits Hlong). unfold in_long, in_signed. lia.
  - reflexivity.
  - rewrite (Hread re2 2500 Hr2). destruct Hlong; subst; vm_compute; reflexivity.
Qed.

Lemma scenario_when_scan_stops_witness :
  irq_events 32 5000 1 (all_high 10) {| value := 0; spinlock := false |} =
    Some {| value := 10; spinlock := false |} /\
  Z.quot (10 * 3600) 5000 = 7 /\
  read_user (rotation_sensor_read 32 5000 read_env_ok
               {| value := 10; spinlock := false |} 4096 0) = line "0.7" /\
  rotation_sensor_write 32
    {| kmalloc_ok := true; copy_from_user := 0; beyond := [LF] |}
    {| value := 10; spinlock := false |} (bytes "2500") =
    Some {| write_ret := 4;
            write_sensor := {| value := 2500; spinlock := false |} |} /\
  Z.quot (2500 * 3600) 5000 = 1800 /\
  read_user (rotation_sensor_read 32 5000 read_env_ok
               {| value := 2500; spinlock := false |} 4096 0) = line "180.0".
Proof.
  apply (scenario_when_scan_stops 32 read_env_ok read_env_ok
           {| kmalloc_ok := true; copy_from_user := 0; beyond := [LF] |} 4096).
  - left; reflexivity.
  - reflexivity.
  - reflexivity.
  - reflexivity.
  - reflexivity.
  - reflexivity.
  - simpl; lia.
Defined.

(** C6.  The scenario on the code, for both widths of [long].  With
    [count_max] 5000 and the counter at 0, ten edges with channel B high
    leave the counter at 10 and a full read returns the line 0.7.  The
    write of the four bytes 2500 does not always store 2500: the buffer is
    not NUL-terminated and [sscanf] scans on into the bytes behind it.
    With the digit 3 there the write succeeds, returns 4 and stores 25003,
    and the next full read returns the line 1800.2 instead of 180.0. *)
Theorem scenario_write_scans_past_buffer :
  (irq_events 32 5000 1 (all_high 10) {| value := 0; spinlock := false |} =
     Some {| value := 10; spinlock := false |} /\
   read_user (rotation_sensor_read 32 5000 read_env_ok
                {| value := 10; spinlock := false |} 4096 0) = line "0.7" /\
   rotation_sensor_write 32
     {| kmalloc_ok := true; copy_from_user := 0; beyond := bytes "3" |}
     {| value := 10; spinlock := false |} (bytes "2500") =
     Some {| write_ret := 4;
             write_sensor := {| value := 25003; spinlock := false |} |} /\
   read_user (rotation_sensor_read 32 5000 read_env_ok
                {| value := 25003; spinlock := false |} 4096 0) = line "1800.2") /\
  (irq_events 64 5000 1 (all_high 10) {| value := 0; spinlock := false |} =
     Some {| value := 10; spinlock := false |} /\
   read_user (rotation_sensor_read 64 5000 read_env_ok
                {| value := 10; spinlock := false |} 4096 0) = line "0.7" /\
   rotation_sensor_write 64
     {| kmalloc_ok := true; copy_from_user := 0; beyond := bytes "3" |}
     {| value := 10; spinlock := false |} (bytes "2500") =
     Some {| write_ret := 4;
             write_sensor := {| value := 25003; spinlock := false |} |} /\
   read_user (rotation_sensor_read 64 5000 read_env_ok
                {| value := 25003; spinlock := false |} 4096 0) = line "1800.2") /\
  line "1800.2" <> line "180.0".
Proof.
  split; [|split].
  - conjuncts; vm_compute; reflexivity.
  - conjuncts; vm_compute; reflexivity.
  - vm_compute. discriminate.
Qed.

(** * Module start-up *)

(** C2 (every failing transition of the start-up aborts it with a nonzero
    error and releases what was acquired before, in reverse order) fails
    on the code in two of its five transitions.  When
    [gpio_direction_input] fails (here with [-EINVAL]) both lines are
    released, but the function returns [err], still 0 from the last
    request: the start reports success.  When [misc_register] fails (here
    with [-EBUSY]) the error is returned and nothing is released: the
    interrupt handler and both lines stay held. *)
Theorem init_failures_not_rolled_back :
  rotation_sensor_init DEFAULT_GPIO_A DEFAULT_GPIO_B
    {| gpio_request_a := 0; gpio_request_b := 0;
       gpio_direction_input_a := -22; gpio_direction_input_b := 0;
       request_irq := 0; misc_register := 0 |} boot =
  {| init_ret := 0;
     init_kernel := {| held := [];
                       history := [Acquired (GpioLine 18); Acquired (GpioLine 17);
                                   Released (GpioLine 17); Released (GpioLine 18)] |};
     init_sensor := {| value := 0; spinlock := false |} |} /\
  init_ret (rotation_sensor_init DEFAULT_GPIO_A DEFAULT_GPIO_B
    {| gpio_request_a := 0; gpio_request_b := 0;
       gpio_direction_input_a := 0; gpio_direction_input_b := -22;
       request_irq := 0; misc_register := 0 |} boot) = 0 /\
  rotation_sensor_init DEFAULT_GPIO_A DEFAULT_GPIO_B
    {| gpio_request_a := 0; gpio_request_b := 0;
       gpio_direction_input_a := 0; gpio_direction_input_b := 0;
       request_irq := 0; misc_register := -16 |} boot =
  {| init_ret := -16;
     init_kernel := {| held := [IrqHandler 18; GpioLine 17; GpioLine 18];
                       history := [Acquired (GpioLine 18); Acquired (GpioLine 17);
                                   Acquired (IrqHandler 18)] |};
     init_sensor := {| value := 0; spinlock := false |} |}.
Proof.
  repeat split.
Qed.

(** * The reader against the handler *)

(** C8 (the handler's three steps run in one critical section and the
    reader samples the counter under the same lock, so that no reader sees
    a value before its normalisation) fails on the code on the reader's
    side: the reader loads the counter and computes the
    angle before it takes the lock, which then covers [snprintf] only.
    With [count_max] 4, the counter at 0 and channel B low, the handler
    takes the lock and steps the counter to -1; the reader, on another
    processor, computes its angle from -1 while the handler is in its
    section.  Both run to their end: the counter is 3, the reader holds the
    line -90.0, which is the string of neither 0 nor 3. *)
Theorem reader_observes_unnormalized :
  Smp.run 64 4 0 [Smp.Edge; Smp.Edge; Smp.Request] (Smp.start 0) =
  Some {| Smp.sensor := {| value := -1; spinlock := true |};
          Smp.h_pc := Smp.H_while_above; Smp.r_pc := Smp.R_spin_lock;
          Smp.r_angle := -900; Smp.r_kbuffer := [] |} /\
  Smp.run 64 4 0
    [Smp.Edge; Smp.Edge; Smp.Request; Smp.Edge; Smp.Edge; Smp.Edge; Smp.Edge;
     Smp.Request; Smp.Request; Smp.Request] (Smp.start 0) =
  Some {| Smp.sensor := {| value := 3; spinlock := false |};
          Smp.h_pc := Smp.H_return; Smp.r_pc := Smp.R_strlen;
          Smp.r_angle := -900; Smp.r_kbuffer := line "-90.0" |} /\
  format_angle 64 4 0 = line "0.0" /\
  format_angle 64 4 3 = line "270.0".
Proof.
  repeat split; vm_compute; reflexivity.
Qed.

(** * Further properties of the driver *)

Section EdgeFacts.

Variable long_bits : Z.
Variable count_max : Z.
Hypothesis long_ok : long_bits = 32 \/ long_bits = 64.
Hypothesis count_max_ok : 0 < count_max <= INT_MAX.


(** ** One edge from a counter in range *)

(** The handler on a counter in [0 .. count_max], in one round of each
    loop: up from [count_max] gives 1, down from 0 gives [count_max - 1]. *)
Lemma gpio_a_handler_step (level v : Z) (l : bool) :
  count_max + 1 < 2 ^ (long_bits - 1) -> 0 <= v <= count_max ->
  gpio_a_handler long_bits count_max 1 level {| value := v; spinlock := l |} =
  Some ({| value := if level =? 0
                    then (if v =? 0 then count_max - 1 else v - 1)
                    else (if v =? count_max then 1 else v + 1);
           spinlock := false |}, IRQ_HANDLED).
Proof.
  intros Hover Hv. destruct count_max_ok as [Hm Hi].
  assert (Hw : forall x, -1 <= x <= count_max + 1 -> long_wrap long_bits x = x).
  { intros x Hx. apply (long_wrap_small long_bits long_ok).
    unfold in_long, in_signed. lia. }
  unfold gpio_a_handler, edge_step, spin_lock, set_value, spin_unlock.
  cbn [value spinlock].
  destruct (level =? 0).
  - rewrite (Hw (v - 1)) by lia. cbn [while_above value spinlock].
    assert (E1 : (v - 1 >? count_max) = false) by lia. rewrite E1.
    cbn [while_below value spinlock set_value].
    destruct (v =? 0) eqn:E0.
    + assert (E2 : (v - 1 <? 0) = true) by lia. rewrite E2.
      rewrite (Hw (v - 1 + count_max)) by lia.
      assert (E3 : (v - 1 + count_max <? 0) = false) by lia. rewrite E3.
      replace (v - 1 + count_max) with (count_max - 1) by lia. reflexivity.
    + assert (E2 : (v - 1 <? 0) = false) by lia. rewrite E2. reflexivity.
  - rewrite (Hw (v + 1)) by lia. cbn [while_above value spinlock set_value].
    destruct (v =? count_max) eqn:E0.
    + assert (E1 : (v + 1 >? count_max) = true) by lia. rewrite E1.
      rewrite (Hw (v + 1 - count_max)) by lia.
      assert (E2 : (v + 1 - count_max >? count_max) = false) by lia. rewrite E2.
      cbn [while_below value spinlock set_value].
      assert (E3 : (v + 1 - count_max <? 0) = false) by lia. rewrite E3.
      replace (v + 1 - count_max) with 1 by lia. reflexivity.
    + assert (E1 : (v + 1 >? count_max) = false) by lia. rewrite E1.
      cbn [while_below value spinlock set_value].
      assert (E3 : (v + 1 <? 0) = false) by lia. rewrite E3. reflexivity.
Qed.

(** A run of [n] edges with channel B high, from a counter in
    [1 .. count_max]. *)
Lemma irq_events_high_run (n : nat) :
  count_max + 1 < 2 ^ (long_bits - 1) ->
  forall v, 1 <= v <= count_max ->
  irq_events long_bits count_max 1 (repeat 1 n) {| value := v; spinlock := false |} =
  Some {| value := (v - 1 + Z.of_nat n) mod count_max + 1; spinlock := false |}.
Proof.
  intros Hover. destruct count_max_ok as [Hm Hi].
  induction n as [|n IH]; intros v Hv.
  - simpl. rewrite Z.add_0_r, Z.mod_small by lia. do 2 f_equal. lia.
  - cbn [repeat irq_events].
    rewrite (gpio_a_handler_step 1 v false Hover) by lia.
    change (1 =? 0) with false. cbv iota.
    destruct (v =? count_max) eqn:E.
    + rewrite IH by lia.
      replace (v - 1 + Z.of_nat (S n)) with (1 - 1 + Z.of_nat n + 1 * count_max) by lia.
      rewrite Z.mod_add by lia. reflexivity.
    + rewrite IH by lia.
      replace (v + 1 - 1 + Z.of_nat n) with (v - 1 + Z.of_nat (S n)) by lia.
      reflexivity.
Qed.

(** A run of [n] edges with channel B low, from a counter in
    [0 .. count_max - 1]. *)
Lemma irq_events_low_run (n : nat) :
  count_max + 1 < 2 ^ (long_bits - 1) ->
  forall v, 0 <= v < count_max ->
  irq_events long_bits count_max 1 (repeat 0 n) {| value := v; spinlock := false |} =
  Some {| value := (v - Z.of_nat n) mod count_max; spinlock := false |}.
Proof.
  intros Hover. destruct count_max_ok as [Hm Hi].
  induction n as [|n IH]; intros v Hv.
  - simpl. rewrite Z.sub_0_r, Z.mod_small by lia. reflexivity.
  - cbn [repeat irq_events].
    rewrite (gpio_a_handler_step 0 v false Hover) by lia.
    change (0 =? 0) with true. cbv iota.
    destruct (v =? 0) eqn:E.
    + rewrite IH by lia.
      replace (count_max - 1 - Z.of_nat n) with (v - Z.of_nat (S n) + 1 * count_max) by lia.
      rewrite Z.mod_add by lia. reflexivity.
    + rewrite IH by lia.
      replace (v - 1 - Z.of_nat n) with (v - Z.of_nat (S n)) by lia.
      reflexivity.
Qed.

(** ** How long the loops run *)

Lemma while_above_exhausted (n : nat) :
  forall s, in_long long_bits (value s) ->
    (while_above long_bits count_max n s = None <-> count_max * (Z.of_nat n + 1) < value s).
Proof.
  destruct count_max_ok as [Hm Hi].
  induction n as [|n IH]; intros s Hin; simpl while_above.
  - destruct (value s >? count_max) eqn:E; split; intros H;
      try reflexivity; try discriminate; lia.
  - destruct (value s >? count_max) eqn:E.
    + assert (Hw : long_wrap long_bits (value s - count_max) = value s - count_max).
      { apply (long_wrap_small long_bits long_ok). unfold in_long, in_signed in *. lia. }
      rewrite IH.
      * cbn [value set_value]. rewrite Hw. lia.
      * cbn [value set_value]. rewrite Hw. unfold in_long, in_signed in *. lia.
    + split; intros H; [discriminate|nia].
Qed.

Lemma while_below_exhausted (n : nat) :
  forall s, in_long long_bits (value s) ->
    (while_below long_bits count_max n s = None <-> value s < - (count_max * Z.of_nat n)).
Proof.
  destruct count_max_ok as [Hm Hi]. pose proof (long_half_ge long_bits long_ok) as Hh.
  induction n as [|n IH]; intros s Hin; simpl while_below.
  - destruct (value s <? 0) eqn:E; split; intros H;
      try reflexivity; try discriminate; lia.
  - destruct (value s <? 0) eqn:E.
    + assert (Hw : long_wrap long_bits (value s + count_max) = value s + count_max).
      { apply (long_wrap_small long_bits long_ok).
        unfold in_long, in_signed, INT_MAX in *. lia. }
      rewrite IH.
      * cbn [value set_value]. rewrite Hw. lia.
      * cbn [value set_value]. rewrite Hw. unfold in_long, in_signed, INT_MAX in *. lia.
    + split; intros H; [discriminate|nia].
Qed.

(** The handler runs out of [n] rounds exactly when the stepped counter
    lies more than [n] rounds away from the range. *)
Lemma gpio_a_handler_exhausted (n : nat) (level : Z) (s : rotation_sensor_struct) :
  in_long long_bits (value s) ->
  (gpio_a_handler long_bits count_max n level s = None <->
   count_max * (Z.of_nat n + 1) < value (edge_step long_bits level (spin_lock s)) \/
   value (edge_step long_bits level (spin_lock s)) < - (count_max * Z.of_nat n)).
Proof.
  intros Hin. destruct count_max_ok as [Hm Hi].
  unfold gpio_a_handler.
  set (s1 := edge_step long_bits level (spin_lock s)).
  assert (Hin1 : in_long long_bits (value s1))
    by apply (edge_step_in_long long_bits long_ok).
  pose proof (while_above_exhausted n s1 Hin1) as Ha.
  destruct (while_above long_bits count_max n s1) as [s2|] eqn:E2.
  - assert (Hnot : ~ count_max * (Z.of_nat n + 1) < value s1).
    { intros H. apply Ha in H. discriminate. }
    destruct (while_above_run long_bits count_max long_ok n s1 Hm Hin1 ltac:(lia))
      as (s2' & k & E2' & _ & Hk & Hv & Hk0 & Hr).
    rewrite E2 in E2'. inversion E2'; subst s2'. clear E2'.
    assert (Hin2 : in_long long_bits (value s2)).
    { unfold in_long, in_signed in *. nia. }
    pose proof (while_below_exhausted n s2 Hin2) as Hb.
    destruct (while_below long_bits count_max n s2) as [s3|] eqn:E3.
    + split; [discriminate|]. intros [H|H]; [lia|].
      assert (value s2 < - (count_max * Z.of_nat n)); [|apply Hb in H0; discriminate].
      destruct (Z_le_gt_dec (value s1) count_max) as [Hs|Hs].
      * specialize (Hk0 Hs). subst k. lia.
      * nia.
    + split; [|reflexivity]. intros _. right.
      assert (Hlt : value s2 < - (count_max * Z.of_nat n)) by (apply Hb; reflexivity).
      destruct (Z_le_gt_dec (value s1) count_max) as [Hs|Hs].
      * specialize (Hk0 Hs). subst k. lia.
      * specialize (Hr ltac:(lia)). nia.
  - split; [|reflexivity]. intros _. left. apply Ha. reflexivity.
Qed.

End EdgeFacts.

(** ** Lists cut in two *)

Lemma firstn_add_skipn (A : Type) (a b : nat) :
  forall l : list A, firstn a l ++ firstn b (skipn a l) = firstn (a + b) l.
Proof.
  induction a as [|a IH]; intros l.
  - reflexivity.
  - destruct l as [|x l]; simpl.
    + rewrite firstn_nil. reflexivity.
    + rewrite IH. reflexivity.
Qed.

Lemma firstn_min_skipn (A : Type) (c b : nat) (l : list A) :
  firstn (Nat.min c (length l)) l ++ firstn b (skipn (Nat.min c (length l)) l) =
  firstn (c + b) l.
Proof.
  destruct (Nat.le_gt_cases c (length l)) as [H|H].
  - rewrite Nat.min_l by assumption. apply firstn_add_skipn.
  - rewrite Nat.min_r by lia. rewrite firstn_all, skipn_all, firstn_nil, app_nil_r.
    symmetry. apply firstn_all2. lia.
Qed.

(** ** Decimal strings *)

Lemma format_ld_length_bound (n : Z) (k : nat) :
  (1 <= k)%nat -> Z.abs n < 10 ^ Z.of_nat k -> (length (format_ld n) <= S k)%nat.
Proof.
  intros Hk Hn. unfold format_ld. destruct (n <? 0) eqn:E; simpl length.
  - pose proof (dec_unsigned_length (- n) k Hk ltac:(lia)). lia.
  - pose proof (dec_unsigned_length n k Hk ltac:(lia)). lia.
Qed.

Lemma format_ld_length_pos (n : Z) : (1 <= length (format_ld n))%nat.
Proof.
  pose proof (format_ld_nonempty n) as H.
  destruct (format_ld n); [contradiction|simpl; lia].
Qed.

Lemma dec_unsigned_digit (r : Z) : 0 <= r < 10 -> dec_unsigned r = [digit_char r].
Proof.
  intros Hr. unfold dec_unsigned. cbn [put_dec].
  assert (E : (r <? 10) = true) by lia. rewrite E.
  rewrite Z.mod_small by lia. reflexivity.
Qed.

Section IoFacts.

Variable long_bits : Z.
Variable count_max : Z.
Hypothesis long_ok : long_bits = 32 \/ long_bits = 64.

(** ** The formatted string *)

(** [kbuffer] is large enough: [snprintf] stores the whole string, of 4 to
    23 characters, whatever the counter. *)
Lemma format_angle_whole (v : Z) :
  format_angle long_bits count_max v =
    format_ld (Z.quot (angle_of long_bits count_max v) 10) ++
    dot :: format_ld (Z.rem (angle_of long_bits count_max v) 10) ++ [LF] /\
  (4 <= length (format_angle long_bits count_max v) <= 23)%nat.
Proof.
  unfold format_angle, snprintf_angle.
  set (angle := angle_of long_bits count_max v).
  assert (Hin : in_long long_bits angle)
    by apply (long_wrap_in_long long_bits long_ok).
  pose proof (in_long_63 long_bits long_ok angle Hin) as H63.
  change (2 ^ 63) with 9223372036854775808 in H63.
  destruct (quot_rem_abs angle 10 ltac:(lia)) as [Hq Hr].
  assert (Hq' : Z.abs (Z.quot angle 10) * 10 <= Z.abs angle).
  { pose proof (Z.quot_rem' angle 10) as Hd.
    destruct (quot_sign angle 10 ltac:(lia)) as [Hp Hn].
    destruct (Z_le_gt_dec 0 angle) as [Ha|Ha].
    - specialize (Hp Ha). pose proof (Z.rem_bound_pos angle 10 Ha ltac:(lia)). lia.
    - specialize (Hn ltac:(lia)).
      assert (Hrem : Z.rem angle 10 <= 0).
      { replace angle with (- (- angle)) by lia. rewrite Z.rem_opp_l by lia.
        pose proof (Z.rem_bound_pos (- angle) 10 ltac:(lia) ltac:(lia)). lia. }
      lia. }
  pose proof (format_ld_length_bound (Z.quot angle 10) 18 ltac:(lia)) as L1.
  change (10 ^ Z.of_nat 18) with 1000000000000000000 in L1.
  specialize (L1 ltac:(lia)).
  pose proof (format_ld_length_bound (Z.rem angle 10) 1 ltac:(lia)) as L2.
  change (10 ^ Z.of_nat 1) with 10 in L2. specialize (L2 ltac:(lia)).
  pose proof (format_ld_length_pos (Z.quot angle 10)) as P1.
  pose proof (format_ld_length_pos (Z.rem angle 10)) as P2.
  assert (Hlen : length (format_ld (Z.quot angle 10) ++
                         dot :: format_ld (Z.rem angle 10) ++ [LF])
                 = (length (format_ld (Z.quot angle 10)) +
                    S (length (format_ld (Z.rem angle 10)) + 1))%nat).
  { rewrite length_app. simpl length. rewrite length_app. reflexivity. }
  rewrite firstn_all2 by lia. split; [reflexivity|lia].
Qed.

(** For a counter the handler leaves, in [0 .. count_max], the angle is
    [value * 3600 / count_max], from 0 to 3600 tenths of a degree. *)
Lemma angle_of_in_range (v : Z) :
  0 < count_max -> count_max * 3600 < 2 ^ (long_bits - 1) -> 0 <= v <= count_max ->
  angle_of long_bits count_max v = v * 3600 / count_max /\
  0 <= angle_of long_bits count_max v <= 3600.
Proof.
  intros Hm Hfit Hv. unfold angle_of.
  assert (Hb : 0 <= v * 3600 / count_max <= 3600).
  { split; [apply Z.div_pos; lia|apply Z.div_le_upper_bound; lia]. }
  rewrite (long_wrap_small long_bits long_ok (v * 3600))
    by (unfold in_long, in_signed; lia).
  rewrite Z.quot_div_nonneg by lia.
  rewrite (long_wrap_small long_bits long_ok).
  - split; [reflexivity|assumption].
  - pose proof (long_half_big long_bits long_ok). unfold in_long, in_signed. lia.
Qed.

(** ** Reading with a failing copy *)

Lemma read_fault (e : read_env) (s : rotation_sensor_struct) (c off : Z) :
  0 <= off < Z.of_nat (length (format_angle long_bits count_max (value s))) ->
  0 < c < 2 ^ long_bits ->
  0 < copy_to_user e <=
    Z.min c (Z.of_nat (length (format_angle long_bits count_max (value s))) - off) ->
  rotation_sensor_read long_bits count_max e s c off =
  {| read_ret := - EFAULT;
     read_user :=
       firstn (Z.to_nat
                 (Z.min c (Z.of_nat (length (format_angle long_bits count_max (value s)))
                           - off) - copy_to_user e))
         (skipn (Z.to_nat off) (format_angle long_bits count_max (value s)));
     read_pos := off |}.
Proof.
  intros Hoff Hc He. unfold rotation_sensor_read.
  pose proof (format_angle_length long_bits count_max (value s)) as Hlen.
  set (kbuffer := format_angle long_bits count_max (value s)) in *.
  set (len := Z.of_nat (length kbuffer)) in *.
  rewrite (wrap_int_small len) by lia.
  rewrite (wrap_loff_small (len - off)) by lia.
  rewrite (wrap_int_small (len - off)) by lia.
  assert (E0 : (len - off <=? 0) = false) by lia. rewrite E0.
  rewrite (uwrap_long_small long_bits long_ok (len - off)) by lia.
  assert (Hlg : (if len - off >? c then wrap int_bits c else len - off)
                = Z.min c (len - off)).
  { destruct (len - off >? c) eqn:E1.
    - rewrite wrap_int_small by lia. lia.
    - lia. }
  cbv zeta. rewrite Hlg.
  assert (Ee : (copy_to_user e =? 0) = false) by lia. rewrite Ee.
  f_equal.
  set (lg := Z.min c (len - off)) in *.
  pose proof (kbuffer_slice kbuffer (stray e) (Z.to_nat off) (Z.to_nat lg)) as Hs.
  rewrite Z2Nat.id in Hs by lia. rewrite Hs by lia.
  rewrite firstn_firstn. f_equal. lia.
Qed.

(** ** Reading in several calls *)

Lemma read_chunks_prefix (e : read_env) (s : rotation_sensor_struct) (caps : list Z) :
  copy_to_user e = 0 ->
  Forall (fun c => 0 <= c < 2 ^ long_bits) caps ->
  forall off,
    0 <= off <= Z.of_nat (length (format_angle long_bits count_max (value s))) ->
    read_chunks long_bits count_max e s caps off =
    firstn (Z.to_nat (fold_right Z.add 0 caps))
      (skipn (Z.to_nat off) (format_angle long_bits count_max (value s))).
Proof.
  intros He Hcaps. induction Hcaps as [|c caps Hc Hcaps IH]; intros off Hoff.
  - reflexivity.
  - cbn [read_chunks fold_right].
    destruct (read_within long_bits count_max long_ok e s c off He Hc Hoff)
      as (H1 & H2 & H3).
    set (kbuffer := format_angle long_bits count_max (value s)) in *.
    set (len := Z.of_nat (length kbuffer)) in *.
    assert (Hsum : 0 <= fold_right Z.add 0 caps).
    { clear - Hcaps. induction Hcaps as [|x l Hx _ IHl]; simpl; lia. }
    rewrite H2, H3, H1. rewrite IH by lia.
    set (L := skipn (Z.to_nat off) kbuffer).
    assert (HL : length L = Z.to_nat (len - off)).
    { subst L len. rewrite length_skipn. lia. }
    replace (skipn (Z.to_nat (off + Z.min c (len - off))) kbuffer)
      with (skipn (Nat.min (Z.to_nat c) (length L)) L).
    2: { subst L. rewrite skipn_skipn. f_equal. rewrite HL. lia. }
    replace (Z.to_nat (Z.min c (len - off))) with (Nat.min (Z.to_nat c) (length L))
      by (rewrite HL; lia).
    rewrite firstn_min_skipn. f_equal. lia.
Qed.

(** ** Writing *)

(** A first byte that is neither white space, a minus sign nor a digit
    decides the scan, whatever follows in the buffer and behind it. *)
Lemma write_rejected (e : write_env) (s : rotation_sensor_struct)
    (c : ascii) (rest : list ascii) :
  kmalloc_ok e = true -> copy_from_user e = 0 ->
  isspace c = false -> isdigit c = false -> code c <> 45 ->
  rotation_sensor_write long_bits e s (c :: rest) =
  Some {| write_ret := - EINVAL; write_sensor := s |}.
Proof.
  intros Hk Hc Hs Hd Hm. unfold rotation_sensor_write.
  rewrite (kmalloc_nonempty e (c :: rest)) by discriminate.
  rewrite Hk, Hc. simpl negb. cbv iota.
  cbn [app cstr]. destruct (code c =? 0) eqn:E0; [reflexivity|].
  unfold sscanf_ld. rewrite skip_spaces_head by assumption.
  assert (E45 : (code c =? 45) = false) by lia.
  rewrite E45, Hd. reflexivity.
Qed.

(** A decimal number followed in the buffer by a byte that is no digit
    (the newline of a text line) is stored as it is, whatever lies behind
    the buffer. *)
Lemma write_terminated (e : write_env) (s : rotation_sensor_struct)
    (k : Z) (c : ascii) (rest : list ascii) :
  kmalloc_ok e = true -> copy_from_user e = 0 ->
  in_long long_bits k -> isdigit c = false ->
  Z.of_nat (length (format_ld k ++ c :: rest)) <= INT_MAX ->
  rotation_sensor_write long_bits e s (format_ld k ++ c :: rest) =
  Some {| write_ret := Z.of_nat (length (format_ld k ++ c :: rest));
          write_sensor := {| value := k; spinlock := false |} |}.
Proof.
  intros Hk Hc Hin Hd Hlen. unfold rotation_sensor_write.
  rewrite (kmalloc_nonempty e (format_ld k ++ c :: rest)).
  2: { pose proof (format_ld_nonempty k). destruct (format_ld k); [contradiction|discriminate]. }
  rewrite Hk, Hc. simpl negb. cbv iota.
  rewrite <- app_assoc. rewrite cstr_app by apply format_ld_no_nul.
  assert (Hrest : isdigit (hd NUL (cstr ((c :: rest) ++ beyond e))) = false).
  { cbn [app cstr]. destruct (code c =? 0); [reflexivity|assumption]. }
  rewrite (sscanf_ld_format_ld long_bits long_ok k _ Hin Hrest).
  do 2 f_equal. apply (long_wrap_small long_bits long_ok).
  pose proof (long_half_ge long_bits long_ok).
  unfold in_long, in_signed, INT_MAX in *. lia.
Qed.

End IoFacts.

(** ** The interleaved contexts never block each other for good *)

Lemma smp_progress (long_bits count_max level : Z) (c : Smp.config) :
  Smp.lock_invariant c ->
  (Smp.h_pc c = Smp.H_return /\ Smp.r_pc c = Smp.R_strlen) \/
  exists who c', Smp.step long_bits count_max level who c = Some c'.
Proof.
  destruct c as [[v l] hp rp a kb].
  unfold Smp.lock_invariant, Smp.handler_in_section, Smp.reader_in_section.
  cbn [Smp.sensor Smp.h_pc Smp.r_pc spinlock]. intros [Hl Hx].
  destruct hp; destruct rp; cbn in Hl, Hx; subst l; try discriminate;
    first
      [ left; split; reflexivity
      | right; exists Smp.Edge; cbn [Smp.step]; unfold Smp.step_edge;
        cbn [Smp.sensor Smp.h_pc spinlock value];
        repeat match goal with
               | |- context [if ?b then _ else _] => destruct b
               end;
        eexists; reflexivity
      | right; exists Smp.Request; cbn [Smp.step]; unfold Smp.step_request;
        cbn [Smp.sensor Smp.r_pc spinlock value];
        eexists; reflexivity ].
Qed.

(** * Further properties: the edge handler *)

(** X1.  A full turn brings the counter back: [count_max] edges with
    channel B high from a counter in [1 .. count_max], or with channel B
    low from a counter in [0 .. count_max - 1], leave it where it was.  At
    the two ends the turn changes the representative instead: up from 0 it
    ends at [count_max], down from [count_max] at 0. *)
Theorem full_turn_returns (long_bits count_max v : Z) :
  long_bits = 32 \/ long_bits = 64 ->
  0 < count_max <= INT_MAX ->
  count_max + 1 < 2 ^ (long_bits - 1) ->
  (1 <= v <= count_max ->
     irq_events long_bits count_max 1 (repeat 1 (Z.to_nat count_max))
       {| value := v; spinlock := false |} = Some {| value := v; spinlock := false |}) /\
  (0 <= v < count_max ->
     irq_events long_bits count_max 1 (repeat 0 (Z.to_nat count_max))
       {| value := v; spinlock := false |} = Some {| value := v; spinlock := false |}) /\
  irq_events long_bits count_max 1 (repeat 1 (Z.to_nat count_max))
    {| value := 0; spinlock := false |} =
    Some {| value := count_max; spinlock := false |} /\
  irq_events long_bits count_max 1 (repeat 0 (Z.to_nat count_max))
    {| value := count_max; spinlock := false |} =
    Some {| value := 0; spinlock := false |}.
Proof.
  intros Hlong Hm Hover.
  assert (Hn : Z.to_nat count_max = S (Z.to_nat (count_max - 1))) by lia.
  conjuncts.
  - intros Hv.
    rewrite (irq_events_high_run long_bits count_max Hlong Hm _ Hover v Hv).
    rewrite Z2Nat.id by lia.
    replace (v - 1 + count_max) with (v - 1 + 1 * count_max) by lia.
    rewrite Z.mod_add, Z.mod_small by lia. do 2 f_equal. lia.
  - intros Hv.
    rewrite (irq_events_low_run long_bits count_max Hlong Hm _ Hover v Hv).
    rewrite Z2Nat.id by lia.
    replace (v - count_max) with (v + (-1) * count_max) by lia.
    rewrite Z.mod_add, Z.mod_small by lia. reflexivity.
  - rewrite Hn. cbn [repeat irq_events].
    rewrite (gpio_a_handler_step long_bits count_max Hlong Hm 1 0 false Hover) by lia.
    change (1 =? 0) with false. cbv iota.
    assert (E : (0 =? count_max) = false) by lia. rewrite E.
    rewrite (irq_events_high_run long_bits count_max Hlong Hm _ Hover (0 + 1)) by lia.
    rewrite Z2Nat.id by lia.
    rewrite Z.mod_small by lia. do 2 f_equal. lia.
  - rewrite Hn. cbn [repeat irq_events].
    rewrite (gpio_a_handler_step long_bits count_max Hlong Hm 0 count_max false Hover) by lia.
    change (0 =? 0) with true. cbv iota.
    assert (E : (count_max =? 0) = false) by lia. rewrite E.
    rewrite (irq_events_low_run long_bits count_max Hlong Hm _ Hover (count_max - 1)) by lia.
    rewrite Z2Nat.id by lia.
    replace (count_max - 1 - (count_max - 1)) with 0 by lia.
    rewrite Z.mod_0_l by lia. reflexivity.
Qed.

Lemma full_turn_returns_witness :
  irq_events 32 5000 1 (repeat 1 (Z.to_nat 5000))
    {| value := 1234; spinlock := false |} =
    Some {| value := 1234; spinlock := false |} /\
  irq_events 32 5000 1 (repeat 0 (Z.to_nat 5000))
    {| value := 1234; spinlock := false |} =
    Some {| value := 1234; spinlock := false |}.
Proof.
  destruct (full_turn_returns 32 5000 1234) as (Hup & Hdown & _).
  - left; reflexivity.
  - unfold INT_MAX; simpl; lia.
  - simpl; lia.
  - split; [apply Hup; lia|apply Hdown; lia].
Defined.

(** X2.  A step forth and back: an edge with channel B high followed by one
    with channel B low leaves a counter in [0 .. count_max - 1] unchanged,
    and the opposite pair leaves a counter in [1 .. count_max] unchanged.
    At the ends the pair crosses over: high then low takes [count_max] to
    0, low then high takes 0 to [count_max]. *)
Theorem edge_forth_and_back (long_bits count_max v : Z) :
  long_bits = 32 \/ long_bits = 64 ->
  0 < count_max <= INT_MAX ->
  count_max + 1 < 2 ^ (long_bits - 1) ->
  (0 <= v < count_max ->
     irq_events long_bits count_max 1 [1; 0] {| value := v; spinlock := false |} =
     Some {| value := v; spinlock := false |}) /\
  (0 < v <= count_max ->
     irq_events long_bits count_max 1 [0; 1] {| value := v; spinlock := false |} =
     Some {| value := v; spinlock := false |}) /\
  irq_events long_bits count_max 1 [1; 0] {| value := count_max; spinlock := false |} =
    Some {| value := 0; spinlock := false |} /\
  irq_events long_bits count_max 1 [0; 1] {| value := 0; spinlock := false |} =
    Some {| value := count_max; spinlock := false |}.
Proof.
  intros Hlong Hm Hover.
  assert (Hstep := gpio_a_handler_step long_bits count_max Hlong Hm).
  conjuncts; try intros Hv; cbn [irq_events].
  - rewrite (Hstep 1 v false Hover) by lia. change (1 =? 0) with false. cbv iota.
    assert (E : (v =? count_max) = false) by lia. rewrite E.
    rewrite (Hstep 0 (v + 1) false Hover) by lia. change (0 =? 0) with true. cbv iota.
    assert (E' : (v + 1 =? 0) = false) by lia. rewrite E'.
    do 2 f_equal. lia.
  - rewrite (Hstep 0 v false Hover) by lia. change (0 =? 0) with true. cbv iota.
    assert (E : (v =? 0) = false) by lia. rewrite E.
    rewrite (Hstep 1 (v - 1) false Hover) by lia. change (1 =? 0) with false. cbv iota.
    assert (E' : (v - 1 =? count_max) = false) by lia. rewrite E'.
    do 2 f_equal. lia.
  - rewrite (Hstep 1 count_max false Hover) by lia. change (1 =? 0) with false. cbv iota.
    rewrite Z.eqb_refl.
    rewrite (Hstep 0 1 false Hover) by lia. change (0 =? 0) with true. cbv iota.
    reflexivity.
  - rewrite (Hstep 0 0 false Hover) by lia. change (0 =? 0) with true. cbv iota.
    rewrite (Hstep 1 (count_max - 1) false Hover) by lia.
    change (1 =? 0) with false. cbv iota.
    assert (E' : (count_max - 1 =? count_max) = false) by lia. rewrite E'.
    do 2 f_equal. lia.
Qed.

Lemma edge_forth_and_back_witness :
  irq_events 64 5000 1 [1; 0] {| value := 7; spinlock := false |} =
    Some {| value := 7; spinlock := false |} /\
  irq_events 64 5000 1 [0; 1] {| value := 7; spinlock := false |} =
    Some {| value := 7; spinlock := false |}.
Proof.
  destruct (edge_forth_and_back 64 5000 7) as (Hforth & Hback & _).
  - right; reflexivity.
  - unfold INT_MAX; simpl; lia.
  - simpl; lia.
  - split; [apply Hforth; lia|apply Hback; lia].
Defined.

(** X3.  The loops of the handler take as many rounds as the stepped
    counter lies whole multiples of [count_max] outside the range: [n]
    rounds of each loop do not suffice exactly when the stepped counter
    exceeds [(n + 1) * count_max] or lies below [- n * count_max].  With
    the lock held the handler thus runs the longer the farther a write has
    put the counter. *)
Theorem handler_rounds (long_bits count_max level : Z) (n : nat)
    (s : rotation_sensor_struct) :
  long_bits = 32 \/ long_bits = 64 ->
  0 < count_max <= INT_MAX ->
  in_long long_bits (value s) ->
  in_long long_bits (value s + (if level =? 0 then -1 else 1)) ->
  (gpio_a_handler long_bits count_max n level s = None <->
   count_max * (Z.of_nat n + 1) < value s + (if level =? 0 then -1 else 1) \/
   value s + (if level =? 0 then -1 else 1) < - (count_max * Z.of_nat n)).
Proof.
  intros Hlong Hm Hin Hstep.
  pose proof (gpio_a_handler_exhausted long_bits count_max Hlong Hm n level s Hin) as H.
  assert (Hv : value (edge_step long_bits level (spin_lock s)) =
               value s + (if level =? 0 then -1 else 1)).
  { unfold edge_step, spin_lock, set_value. cbn [value].
    destruct (level =? 0); cbn [value];
      apply (long_wrap_small long_bits Hlong); assumption. }
  rewrite Hv in H. exact H.
Qed.

Lemma handler_rounds_witness :
  gpio_a_handler 64 5000 2 1 {| value := 15000; spinlock := false |} = None <->
  5000 * (Z.of_nat 2 + 1) < 15000 + (if 1 =? 0 then -1 else 1) \/
  15000 + (if 1 =? 0 then -1 else 1) < - (5000 * Z.of_nat 2).
Proof.
  apply (handler_rounds 64 5000 1 2 {| value := 15000; spinlock := false |}).
  - right; reflexivity.
  - unfold INT_MAX; simpl; lia.
  - unfold in_long, in_signed; simpl; lia.
  - unfold in_long, in_signed; simpl; lia.
Defined.

(** X4.  An edge repairs what a write left: after a write of any [k] that
    fits a [long] (and whose step does not leave [long]), the next edge
    returns with the counter in [0 .. count_max], congruent to [k] plus the
    step modulo [count_max]. *)
Theorem write_then_edge_normalises (long_bits count_max k level : Z)
    (we : write_env) (s : rotation_sensor_struct) :
  long_bits = 32 \/ long_bits = 64 ->
  0 < count_max <= INT_MAX ->
  in_long long_bits k ->
  in_long long_bits (k + (if level =? 0 then -1 else 1)) ->
  kmalloc_ok we = true -> copy_from_user we = 0 -> stops_scan (beyond we) = true ->
  exists w fuel v',
    rotation_sensor_write long_bits we s (format_ld k) = Some w /\
    value (write_sensor w) = k /\
    gpio_a_handler long_bits count_max fuel level (write_sensor w) =
      Some ({| value := v'; spinlock := false |}, IRQ_HANDLED) /\
    0 <= v' <= count_max /\
    (v' - (k + (if level =? 0 then -1 else 1))) mod count_max = 0.
Proof.
  intros Hlong Hm Hk Hstep Hka Hco Hst.
  pose proof (write_decimal long_bits Hlong we s k Hka Hco Hst Hk) as Hw.
  destruct (gpio_a_handler_closed_form long_bits count_max Hlong level
              {| value := k; spinlock := false |} Hm Hk) as (fuel & Hh).
  eexists. exists fuel. eexists. split; [exact Hw|]. cbn [write_sensor value].
  split; [reflexivity|]. split; [exact Hh|].
  cbn [value]. unfold handler_value.
  assert (Hv1 : (if level =? 0 then long_wrap long_bits (k - 1)
                 else long_wrap long_bits (k + 1)) =
                k + (if level =? 0 then -1 else 1)).
  { destruct (level =? 0); apply (long_wrap_small long_bits Hlong); assumption. }
  rewrite Hv1. set (v1 := k + (if level =? 0 then -1 else 1)).
  destruct Hm as [Hm Hi].
  assert (Hcong : forall a, (a mod count_max - a) mod count_max = 0).
  { intros a. pose proof (Z.mod_eq a count_max ltac:(lia)) as He.
    replace (a mod count_max - a) with (0 + (- (a / count_max)) * count_max) by lia.
    rewrite Z.mod_add by lia. reflexivity. }
  destruct (v1 >? count_max) eqn:Ea.
  - pose proof (Z.mod_pos_bound (v1 - 1) count_max Hm) as Hb.
    split; [lia|].
    replace ((v1 - 1) mod count_max + 1 - v1)
      with ((v1 - 1) mod count_max - (v1 - 1)) by lia.
    apply Hcong.
  - destruct (v1 <? 0) eqn:Eb.
    + pose proof (Z.mod_pos_bound v1 count_max Hm) as Hb.
      split; [lia|]. apply Hcong.
    + split; [lia|]. rewrite Z.sub_diag. apply Z.mod_0_l. lia.
Qed.

Lemma write_then_edge_normalises_witness :
  exists w fuel v',
    rotation_sensor_write 64 write_env_ok {| value := 3; spinlock := false |}
      (format_ld (-123456)) = Some w /\
    value (write_sensor w) = -123456 /\
    gpio_a_handler 64 5000 fuel 1 (write_sensor w) =
      Some ({| value := v'; spinlock := false |}, IRQ_HANDLED) /\
    0 <= v' <= 5000 /\
    (v' - (-123456 + (if 1 =? 0 then -1 else 1))) mod 5000 = 0.
Proof.
  apply (write_then_edge_normalises 64 5000 (-123456) 1 write_env_ok
           {| value := 3; spinlock := false |}).
  - right; reflexivity.
  - unfold INT_MAX; simpl; lia.
  - unfold in_long, in_signed; simpl; lia.
  - unfold in_long, in_signed; simpl; lia.
  - reflexivity.
  - reflexivity.
  - reflexivity.
Defined.

(** * Further properties: reading *)

(** X5.  End of the stream: with the offset at the end of the formatted
    string, or up to [2 ^ 31] bytes behind it, a read returns 0, stores
    nothing and leaves the offset alone, whatever the capacity and whether
    or not the caller's buffer can be written. *)
Theorem read_end_of_stream (long_bits count_max : Z) (e : read_env)
    (s : rotation_sensor_struct) (c off : Z) :
  long_bits = 32 \/ long_bits = 64 ->
  Z.of_nat (length (format_angle long_bits count_max (value s))) <= off
    <= Z.of_nat (length (format_angle long_bits count_max (value s))) + 2147483648 ->
  rotation_sensor_read long_bits count_max e s c off =
  {| read_ret := 0; read_user := []; read_pos := off |}.
Proof.
  intros _ Hoff. apply read_eof. assumption.
Qed.

Lemma read_end_of_stream_witness :
  rotation_sensor_read 64 5000 {| copy_to_user := 5; stray := fun _ => NUL |}
    {| value := 2500; spinlock := false |} 4096 6 =
  {| read_ret := 0; read_user := []; read_pos := 6 |}.
Proof.
  apply (read_end_of_stream 64 5000 {| copy_to_user := 5; stray := fun _ => NUL |}
           {| value := 2500; spinlock := false |} 4096 6).
  - right; reflexivity.
  - vm_compute. split; discriminate.
Defined.

(** X6.  A failing copy: when bytes remain and [copy_to_user] leaves some
    of them uncopied, the read returns [-EFAULT] and does not advance the
    offset, although the bytes copied before the fault are in the caller's
    buffer. *)
Theorem read_copy_fault (long_bits count_max : Z) (e : read_env)
    (s : rotation_sensor_struct) (c off : Z) :
  long_bits = 32 \/ long_bits = 64 ->
  0 <= off < Z.of_nat (length (format_angle long_bits count_max (value s))) ->
  0 < c < 2 ^ long_bits ->
  0 < copy_to_user e <=
    Z.min c (Z.of_nat (length (format_angle long_bits count_max (value s))) - off) ->
  rotation_sensor_read long_bits count_max e s c off =
  {| read_ret := - EFAULT;
     read_user :=
       firstn (Z.to_nat
                 (Z.min c (Z.of_nat (length (format_angle long_bits count_max (value s)))
                           - off) - copy_to_user e))
         (skipn (Z.to_nat off) (format_angle long_bits count_max (value s)));
     read_pos := off |}.
Proof.
  intros Hlong. apply (read_fault long_bits count_max Hlong).
Qed.

Lemma read_copy_fault_witness :
  rotation_sensor_read 64 5000 {| copy_to_user := 2; stray := fun _ => NUL |}
    {| value := 2500; spinlock := false |} 100 1 =
  {| read_ret := - EFAULT;
     read_user :=
       firstn (Z.to_nat
                 (Z.min 100 (Z.of_nat (length (format_angle 64 5000 2500)) - 1) - 2))
         (skipn (Z.to_nat 1) (format_angle 64 5000 2500));
     read_pos := 1 |}.
Proof.
  apply (read_copy_fault 64 5000 {| copy_to_user := 2; stray := fun _ => NUL |}
           {| value := 2500; spinlock := false |} 100 1).
  - right; reflexivity.
  - vm_compute. split; [discriminate|reflexivity].
  - simpl; lia.
  - vm_compute. split; [reflexivity|discriminate].
Defined.

(** X7.  Reading in any number of calls: successive reads with capacities
    [c1, c2, ...], each at the offset the one before left, deliver
    together the first [c1 + c2 + ...] bytes of the formatted string; as
    soon as the capacities add up to its length they deliver the whole
    string, and nothing more. *)
Theorem read_in_any_chunks (long_bits count_max : Z) (e : read_env)
    (s : rotation_sensor_struct) (caps : list Z) :
  long_bits = 32 \/ long_bits = 64 ->
  copy_to_user e = 0 ->
  Forall (fun c => 0 <= c < 2 ^ long_bits) caps ->
  read_chunks long_bits count_max e s caps 0 =
    firstn (Z.to_nat (fold_right Z.add 0 caps))
      (format_angle long_bits count_max (value s)) /\
  (Z.of_nat (length (format_angle long_bits count_max (value s)))
     <= fold_right Z.add 0 caps ->
   read_chunks long_bits count_max e s caps 0 =
     format_angle long_bits count_max (value s)).
Proof.
  intros Hlong He Hcaps.
  pose proof (read_chunks_prefix long_bits count_max Hlong e s caps He Hcaps 0) as H.
  cbn [Z.to_nat skipn] in H. specialize (H ltac:(lia)).
  split; [exact H|].
  intros Hsum. rewrite H. apply firstn_all2. lia.
Qed.

Lemma read_in_any_chunks_witness :
  read_chunks 32 5000 read_env_ok {| value := 2500; spinlock := false |} [1; 0; 2; 7] 0 =
    firstn (Z.to_nat (fold_right Z.add 0 [1; 0; 2; 7])) (format_angle 32 5000 2500) /\
  (Z.of_nat (length (format_angle 32 5000 2500)) <= fold_right Z.add 0 [1; 0; 2; 7] ->
   read_chunks 32 5000 read_env_ok {| value := 2500; spinlock := false |} [1; 0; 2; 7] 0 =
     format_angle 32 5000 2500).
Proof.
  apply (read_in_any_chunks 32 5000 read_env_ok
           {| value := 2500; spinlock := false |} [1; 0; 2; 7]).
  - left; reflexivity.
  - reflexivity.
  - repeat constructor; simpl; lia.
Defined.

(** X8.  The 64-byte buffer of the reader suffices: for every counter
    value [snprintf] stores the whole string, the whole part, a dot, the
    tenth and a newline, which has between 4 and 23 characters. *)
Theorem kbuffer_never_truncated (long_bits count_max v : Z) :
  long_bits = 32 \/ long_bits = 64 ->
  format_angle long_bits count_max v =
    format_ld (Z.quot (angle_of long_bits count_max v) 10) ++
    dot :: format_ld (Z.rem (angle_of long_bits count_max v) 10) ++ [LF] /\
  (4 <= length (format_angle long_bits count_max v) <= 23)%nat.
Proof.
  intros Hlong. apply (format_angle_whole long_bits count_max Hlong).
Qed.

Lemma kbuffer_never_truncated_witness :
  format_angle 64 1 (-2562047788015215) =
    format_ld (Z.quot (angle_of 64 1 (-2562047788015215)) 10) ++
    dot :: format_ld (Z.rem (angle_of 64 1 (-2562047788015215)) 10) ++ [LF] /\
  (4 <= length (format_angle 64 1 (-2562047788015215)) <= 23)%nat.
Proof.
  apply (kbuffer_never_truncated 64 1 (-2562047788015215)).
  right; reflexivity.
Defined.

(** X9.  What is read after an edge: for a counter in [0 .. count_max]
    (and [count_max * 3600] within [long]) the angle is
    [value * 3600 / count_max], between 0 and 3600 tenths of a degree and
    growing with the counter; the string read is its whole degrees, a dot,
    one digit and a newline. *)
Theorem angle_of_normalised_counter (long_bits count_max v : Z) :
  long_bits = 32 \/ long_bits = 64 ->
  0 < count_max ->
  count_max * 3600 < 2 ^ (long_bits - 1) ->
  0 <= v <= count_max ->
  angle_of long_bits count_max v = v * 3600 / count_max /\
  0 <= angle_of long_bits count_max v <= 3600 /\
  angle_of long_bits count_max 0 = 0 /\
  angle_of long_bits count_max count_max = 3600 /\
  (forall v', v <= v' <= count_max ->
     angle_of long_bits count_max v <= angle_of long_bits count_max v') /\
  format_angle long_bits count_max v =
    dec_unsigned (v * 3600 / count_max / 10) ++
    [dot; digit_char ((v * 3600 / count_max) mod 10); LF].
Proof.
  intros Hlong Hm Hfit Hv.
  destruct (angle_of_in_range long_bits count_max Hlong v Hm Hfit Hv) as [Ha Hb].
  refine (conj Ha (conj Hb (conj _ (conj _ (conj _ _))))).
  - destruct (angle_of_in_range long_bits count_max Hlong 0 Hm Hfit ltac:(lia)) as [H0 _].
    rewrite H0. apply Z.div_0_l. lia.
  - destruct (angle_of_in_range long_bits count_max Hlong count_max Hm Hfit ltac:(lia))
      as [H1 _].
    rewrite H1. rewrite Z.mul_comm. apply Z.div_mul. lia.
  - intros v' Hv'.
    destruct (angle_of_in_range long_bits count_max Hlong v' Hm Hfit ltac:(lia)) as [H1 _].
    rewrite Ha, H1. apply Z.div_le_mono; lia.
  - destruct (format_angle_whole long_bits count_max Hlong v) as [Hw _].
    rewrite Hw, Ha. set (angle := v * 3600 / count_max) in *. rewrite Ha in Hb.
    rewrite Z.quot_div_nonneg, Z.rem_mod_nonneg by lia.
    pose proof (Z.mod_pos_bound angle 10 ltac:(lia)) as Hr.
    assert (Hq : 0 <= angle / 10) by (apply Z.div_pos; lia).
    unfold format_ld.
    assert (E1 : (angle / 10 <? 0) = false) by lia.
    assert (E2 : (angle mod 10 <? 0) = false) by lia.
    rewrite E1, E2. rewrite (dec_unsigned_digit (angle mod 10)) by lia.
    reflexivity.
Qed.

Lemma angle_of_normalised_counter_witness :
  angle_of 32 5000 4999 = 4999 * 3600 / 5000 /\
  0 <= angle_of 32 5000 4999 <= 3600 /\
  angle_of 32 5000 0 = 0 /\
  angle_of 32 5000 5000 = 3600 /\
  (forall v', 4999 <= v' <= 5000 -> angle_of 32 5000 4999 <= angle_of 32 5000 v') /\
  format_angle 32 5000 4999 =
    dec_unsigned (4999 * 3600 / 5000 / 10) ++
    [dot; digit_char ((4999 * 3600 / 5000) mod 10); LF].
Proof.
  apply (angle_of_normalised_counter 32 5000 4999).
  - left; reflexivity.
  - lia.
  - simpl; lia.
  - lia.
Defined.

(** * Further properties: writing *)

(** X10.  A write of at least one byte always returns.  It returns
    [-ENOMEM] exactly when [kmalloc] fails, [-EFAULT] exactly when the copy
    from the caller fails, and [-EINVAL] exactly when the text scanned (the
    buffer and the bytes behind it, up to the first NUL) starts with no
    signed decimal integer; these leave the sensor as it was.  Otherwise
    the counter is overwritten with that integer, reduced to a [long] and
    not normalised, the lock is free and the input length is returned. *)
Theorem write_some_bytes_outcomes (long_bits : Z) (e : write_env)
    (s : rotation_sensor_struct) (buffer : list ascii) :
  long_bits = 32 \/ long_bits = 64 ->
  buffer <> [] ->
  Z.of_nat (length buffer) <= INT_MAX ->
  exists r, rotation_sensor_write long_bits e s buffer = Some r /\
  (write_ret r = - ENOMEM <-> kmalloc_ok e = false) /\
  (write_ret r = - EFAULT <-> kmalloc_ok e = true /\ copy_from_user e <> 0) /\
  (write_ret r = - EINVAL <->
     kmalloc_ok e = true /\ copy_from_user e = 0 /\
     ~ exists n, spec_leading_integer (cstr (buffer ++ beyond e)) n) /\
  (write_ret r < 0 -> write_sensor r = s) /\
  (0 <= write_ret r ->
     exists n, spec_leading_integer (cstr (buffer ++ beyond e)) n /\
       write_sensor r = {| value := long_wrap long_bits n; spinlock := false |} /\
       write_ret r = Z.of_nat (length buffer)).
Proof.
  intros Hlong. apply (write_outcomes long_bits Hlong).
Qed.

Lemma write_some_bytes_outcomes_witness :
  exists r,
    rotation_sensor_write 64
      {| kmalloc_ok := true; copy_from_user := 0; beyond := bytes "9" |}
      {| value := 7; spinlock := false |} (bytes " -42 ") = Some r /\
  (write_ret r = - ENOMEM <-> true = false) /\
  (write_ret r = - EFAULT <-> true = true /\ 0 <> 0) /\
  (write_ret r = - EINVAL <->
     true = true /\ 0 = 0 /\
     ~ exists n, spec_leading_integer (cstr (bytes " -42 " ++ bytes "9")) n) /\
  (write_ret r < 0 -> write_sensor r = {| value := 7; spinlock := false |}) /\
  (0 <= write_ret r ->
     exists n, spec_leading_integer (cstr (bytes " -42 " ++ bytes "9")) n /\
       write_sensor r = {| value := long_wrap 64 n; spinlock := false |} /\
       write_ret r = Z.of_nat (length (bytes " -42 "))).
Proof.
  apply (write_some_bytes_outcomes 64
           {| kmalloc_ok := true; copy_from_user := 0; beyond := bytes "9" |}
           {| value := 7; spinlock := false |} (bytes " -42 ")).
  - right; reflexivity.
  - discriminate.
  - unfold INT_MAX; simpl; lia.
Defined.

(** X11.  Input that cannot be a number: when the first byte written is
    neither white space, a minus sign nor a digit, the write returns
    [-EINVAL] and leaves the sensor untouched, whatever follows that byte
    and whatever lies behind the buffer. *)
Theorem write_rejects_other_first_byte (long_bits : Z) (e : write_env)
    (s : rotation_sensor_struct) (c : ascii) (rest : list ascii) :
  kmalloc_ok e = true -> copy_from_user e = 0 ->
  isspace c = false -> isdigit c = false -> code c <> 45 ->
  rotation_sensor_write long_bits e s (c :: rest) =
  Some {| write_ret := - EINVAL; write_sensor := s |}.
Proof.
  apply write_rejected.
Qed.

Lemma write_rejects_other_first_byte_witness :
  rotation_sensor_write 32
    {| kmalloc_ok := true; copy_from_user := 0; beyond := bytes "77" |}
    {| value := 7; spinlock := false |} (bytes "+12") =
  Some {| write_ret := - EINVAL; write_sensor := {| value := 7; spinlock := false |} |}.
Proof.
  apply (write_rejects_other_first_byte 32
           {| kmalloc_ok := true; copy_from_user := 0; beyond := bytes "77" |}
           {| value := 7; spinlock := false |} (ascii_of_N 43) (bytes "12")).
  - reflexivity.
  - reflexivity.
  - reflexivity.
  - reflexivity.
  - vm_compute; discriminate.
Defined.

(** X12.  A number and its line end: when the bytes written are the
    decimal string of a [k] that fits a [long], followed by a byte that is
    no digit and by anything else, the write stores [k] and returns the
    input length, whatever lies behind the buffer. *)
Theorem write_line_stores_number (long_bits : Z) (e : write_env)
    (s : rotation_sensor_struct) (k : Z) (c : ascii) (rest : list ascii) :
  long_bits = 32 \/ long_bits = 64 ->
  kmalloc_ok e = true -> copy_from_user e = 0 ->
  in_long long_bits k -> isdigit c = false ->
  Z.of_nat (length (format_ld k ++ c :: rest)) <= INT_MAX ->
  rotation_sensor_write long_bits e s (format_ld k ++ c :: rest) =
  Some {| write_ret := Z.of_nat (length (format_ld k ++ c :: rest));
          write_sensor := {| value := k; spinlock := false |} |}.
Proof.
  intros Hlong. apply (write_terminated long_bits Hlong).
Qed.

Lemma write_line_stores_number_witness :
  rotation_sensor_write 32
    {| kmalloc_ok := true; copy_from_user := 0; beyond := bytes "77" |}
    {| value := 7; spinlock := false |} (format_ld 2500 ++ LF :: []) =
  Some {| write_ret := Z.of_nat (length (format_ld 2500 ++ LF :: []));
          write_sensor := {| value := 2500; spinlock := false |} |}.
Proof.
  apply (write_line_stores_number 32
           {| kmalloc_ok := true; copy_from_user := 0; beyond := bytes "77" |}
           {| value := 7; spinlock := false |} 2500 LF []).
  - left; reflexivity.
  - reflexivity.
  - reflexivity.
  - unfold in_long, in_signed; simpl; lia.
  - reflexivity.
  - unfold INT_MAX; simpl; lia.
Defined.

(** * Further properties: module start and exit *)

(** X13.  Start, then exit: when every call of the start succeeds it
    returns 0 holding the device, the interrupt handler and both lines,
    and the exit releases them in the opposite order of their
    acquisition, leaving nothing held. *)
Theorem init_then_exit (gpio_a gpio_b : Z) (e : init_env) :
  gpio_request_a e = 0 -> gpio_request_b e = 0 ->
  gpio_direction_input_a e = 0 -> gpio_direction_input_b e = 0 ->
  request_irq e = 0 -> misc_register e = 0 ->
  init_ret (rotation_sensor_init gpio_a gpio_b e boot) = 0 /\
  init_sensor (rotation_sensor_init gpio_a gpio_b e boot) =
    {| value := 0; spinlock := false |} /\
  held (init_kernel (rotation_sensor_init gpio_a gpio_b e boot)) =
    [MiscDevice; IrqHandler gpio_a; GpioLine gpio_b; GpioLine gpio_a] /\
  rotation_sensor_exit gpio_a gpio_b
    (init_kernel (rotation_sensor_init gpio_a gpio_b e boot)) =
  {| held := [];
     history := [Acquired (GpioLine gpio_a); Acquired (GpioLine gpio_b);
                 Acquired (IrqHandler gpio_a); Acquired MiscDevice;
                 Released MiscDevice; Released (IrqHandler gpio_a);
                 Released (GpioLine gpio_b); Released (GpioLine gpio_a)] |}.
Proof.
  intros H1 H2 H3 H4 H5 H6.
  destruct (rotation_sensor_init_success gpio_a gpio_b e H1 H2 H3 H4 H5 H6) as [Hr Hh].
  split; [exact Hr|]. split.
  - unfold rotation_sensor_init. rewrite H1, H2, H3, H4, H5, H6. reflexivity.
  - split; [exact Hh|].
    rewrite (rotation_sensor_exit_releases gpio_a gpio_b _ Hh).
    unfold rotation_sensor_init. rewrite H1, H2, H3, H4, H5, H6. reflexivity.
Qed.

Lemma init_then_exit_witness :
  init_ret (rotation_sensor_init 18 17
    {| gpio_request_a := 0; gpio_request_b := 0; gpio_direction_input_a := 0;
       gpio_direction_input_b := 0; request_irq := 0; misc_register := 0 |} boot) = 0 /\
  init_sensor (rotation_sensor_init 18 17
    {| gpio_request_a := 0; gpio_request_b := 0; gpio_direction_input_a := 0;
       gpio_direction_input_b := 0; request_irq := 0; misc_register := 0 |} boot) =
    {| value := 0; spinlock := false |} /\
  held (init_kernel (rotation_sensor_init 18 17
    {| gpio_request_a := 0; gpio_request_b := 0; gpio_direction_input_a := 0;
       gpio_direction_input_b := 0; request_irq := 0; misc_register := 0 |} boot)) =
    [MiscDevice; IrqHandler 18; GpioLine 17; GpioLine 18] /\
  rotation_sensor_exit 18 17
    (init_kernel (rotation_sensor_init 18 17
      {| gpio_request_a := 0; gpio_request_b := 0; gpio_direction_input_a := 0;
         gpio_direction_input_b := 0; request_irq := 0; misc_register := 0 |} boot)) =
  {| held := [];
     history := [Acquired (GpioLine 18); Acquired (GpioLine 17);
                 Acquired (IrqHandler 18); Acquired MiscDevice;
                 Released MiscDevice; Released (IrqHandler 18);
                 Released (GpioLine 17); Released (GpioLine 18)] |}.
Proof.
  apply (init_then_exit 18 17
    {| gpio_request_a := 0; gpio_request_b := 0; gpio_direction_input_a := 0;
       gpio_direction_input_b := 0; request_irq := 0; misc_register := 0 |});
    reflexivity.
Defined.

(** X14.  The device is registered only by a start in which nothing
    failed: after [rotation_sensor_init] the module holds the device, the
    interrupt handler and both lines exactly when all six kernel calls
    returned 0, and then the start returns 0. *)
Theorem init_holds_all_iff (gpio_a gpio_b : Z) (e : init_env) :
  (held (init_kernel (rotation_sensor_init gpio_a gpio_b e boot)) =
     [MiscDevice; IrqHandler gpio_a; GpioLine gpio_b; GpioLine gpio_a] <->
   gpio_request_a e = 0 /\ gpio_request_b e = 0 /\
   gpio_direction_input_a e = 0 /\ gpio_direction_input_b e = 0 /\
   request_irq e = 0 /\ misc_register e = 0) /\
  (In MiscDevice (held (init_kernel (rotation_sensor_init gpio_a gpio_b e boot))) ->
   init_ret (rotation_sensor_init gpio_a gpio_b e boot) = 0).
Proof.
  unfold rotation_sensor_init, gpio_free, release, acquire, boot.
  destruct (gpio_request_a e =? 0) eqn:E1; cbn [negb held history init_kernel init_ret].
  2: { split; [split|]; [discriminate|intros (H & _); lia|intros []]. }
  destruct (gpio_request_b e =? 0) eqn:E2; cbn [negb held history init_kernel init_ret].
  2: { cbn [remove_first resource_eqb]. rewrite Z.eqb_refl.
       split; [split|]; [discriminate|intros (_ & H & _); lia|intros []]. }
  destruct (gpio_direction_input_a e =? 0) eqn:E3;
    cbn [negb orb held history init_kernel init_ret].
  2: { cbn [remove_first resource_eqb]. rewrite !Z.eqb_refl.
       cbn [remove_first resource_eqb]. rewrite Z.eqb_refl.
       split; [split|]; [discriminate|intros (_ & _ & H & _); lia|intros []]. }
  destruct (gpio_direction_input_b e =? 0) eqn:E4;
    cbn [negb orb held history init_kernel init_ret].
  2: { cbn [remove_first resource_eqb]. rewrite !Z.eqb_refl.
       cbn [remove_first resource_eqb]. rewrite Z.eqb_refl.
       split; [split|]; [discriminate|intros (_ & _ & _ & H & _); lia|intros []]. }
  destruct (request_irq e =? 0) eqn:E5; cbn [negb held history init_kernel init_ret].
  2: { cbn [remove_first resource_eqb]. rewrite !Z.eqb_refl.
       cbn [remove_first resource_eqb]. rewrite Z.eqb_refl.
       split; [split|]; [discriminate|intros (_ & _ & _ & _ & H & _); lia|intros []]. }
  destruct (misc_register e =? 0) eqn:E6; cbn [held history init_kernel init_ret].
  - split; [split|]; [intros _; repeat split; lia|reflexivity|intros _; lia].
  - split; [split|].
    + discriminate.
    + intros (_ & _ & _ & _ & _ & H). lia.
    + intros [H|[H|[H|[]]]]; discriminate.
Qed.

(** X15.  A refused request is rolled back: when the first call to fail is
    the request of a line or of the interrupt, the start returns a nonzero
    error, holds nothing, and its history is the acquisitions made
    followed by their releases, the latest first. *)
Theorem init_refused_request_rolls_back (gpio_a gpio_b : Z) (e : init_env) :
  gpio_request_a e <> 0 \/
  (gpio_request_a e = 0 /\ gpio_request_b e <> 0) \/
  (gpio_request_a e = 0 /\ gpio_request_b e = 0 /\
   gpio_direction_input_a e = 0 /\ gpio_direction_input_b e = 0 /\
   request_irq e <> 0) ->
  init_ret (rotation_sensor_init gpio_a gpio_b e boot) <> 0 /\
  held (init_kernel (rotation_sensor_init gpio_a gpio_b e boot)) = [] /\
  exists acquired,
    history (init_kernel (rotation_sensor_init gpio_a gpio_b e boot)) =
    map Acquired acquired ++ map Released (rev acquired).
Proof.
  destruct (rotation_sensor_init_rollback gpio_a gpio_b e) as (Ha & Hb & Hc).
  intros [H|[(H1 & H2)|(H1 & H2 & H3 & H4 & H5)]].
  - rewrite (Ha H). cbn. split; [assumption|]. split; [reflexivity|].
    exists []. reflexivity.
  - rewrite (Hb H1 H2). cbn. split; [assumption|]. split; [reflexivity|].
    exists [GpioLine gpio_a]. reflexivity.
  - rewrite (Hc H1 H2 H3 H4 H5). cbn. split; [assumption|]. split; [reflexivity|].
    exists [GpioLine gpio_a; GpioLine gpio_b]. reflexivity.
Qed.

Lemma init_refused_request_rolls_back_witness :
  init_ret (rotation_sensor_init 18 17
    {| gpio_request_a := 0; gpio_request_b := 0; gpio_direction_input_a := 0;
       gpio_direction_input_b := 0; request_irq := -16; misc_register := 0 |} boot) <> 0 /\
  held (init_kernel (rotation_sensor_init 18 17
    {| gpio_request_a := 0; gpio_request_b := 0; gpio_direction_input_a := 0;
       gpio_direction_input_b := 0; request_irq := -16; misc_register := 0 |} boot)) = [] /\
  exists acquired,
    history (init_kernel (rotation_sensor_init 18 17
      {| gpio_request_a := 0; gpio_request_b := 0; gpio_direction_input_a := 0;
         gpio_direction_input_b := 0; request_irq := -16; misc_register := 0 |} boot)) =
    map Acquired acquired ++ map Released (rev acquired).
Proof.
  apply (init_refused_request_rolls_back 18 17
    {| gpio_request_a := 0; gpio_request_b := 0; gpio_direction_input_a := 0;
       gpio_direction_input_b := 0; request_irq := -16; misc_register := 0 |}).
  right; right. repeat split; discriminate.
Defined.

(** * Further properties: the two contexts *)

(** X16.  Mutual exclusion: however the handler and a reader are
    interleaved, the lock is held exactly while one of them is between
    its lock and its unlock, and they are never there together: the
    handler's step and loops never run while the reader formats. *)
Theorem smp_lock_exclusive (long_bits count_max level v : Z)
    (schedule : list Smp.context) (c : Smp.config) :
  Smp.run long_bits count_max level schedule (Smp.start v) = Some c ->
  spinlock (Smp.sensor c) = Smp.handler_in_section c || Smp.reader_in_section c /\
  Smp.handler_in_section c && Smp.reader_in_section c = false.
Proof.
  intros H.
  apply (smp_run_invariant long_bits count_max level schedule (Smp.start v) c);
    [split; reflexivity|exact H].
Qed.

Lemma smp_lock_exclusive_witness :
  spinlock (Smp.sensor
    {| Smp.sensor := {| value := -1; spinlock := true |};
       Smp.h_pc := Smp.H_while_above; Smp.r_pc := Smp.R_spin_lock;
       Smp.r_angle := -900; Smp.r_kbuffer := [] |}) =
  Smp.handler_in_section
    {| Smp.sensor := {| value := -1; spinlock := true |};
       Smp.h_pc := Smp.H_while_above; Smp.r_pc := Smp.R_spin_lock;
       Smp.r_angle := -900; Smp.r_kbuffer := [] |}
  || Smp.reader_in_section
    {| Smp.sensor := {| value := -1; spinlock := true |};
       Smp.h_pc := Smp.H_while_above; Smp.r_pc := Smp.R_spin_lock;
       Smp.r_angle := -900; Smp.r_kbuffer := [] |} /\
  Smp.handler_in_section
    {| Smp.sensor := {| value := -1; spinlock := true |};
       Smp.h_pc := Smp.H_while_above; Smp.r_pc := Smp.R_spin_lock;
       Smp.r_angle := -900; Smp.r_kbuffer := [] |}
  && Smp.reader_in_section
    {| Smp.sensor := {| value := -1; spinlock := true |};
       Smp.h_pc := Smp.H_while_above; Smp.r_pc := Smp.R_spin_lock;
       Smp.r_angle := -900; Smp.r_kbuffer := [] |} = false.
Proof.
  apply (smp_lock_exclusive 64 4 0 0 [Smp.Edge; Smp.Edge; Smp.Request]).
  vm_compute; reflexivity.
Defined.

(** X17.  No deadlock: however the handler and a reader have been
    interleaved, either both have finished or one of them can take its
    next step; a context that spins on the lock never waits for one that
    has stopped. *)
Theorem smp_never_stuck (long_bits count_max level v : Z)
    (schedule : list Smp.context) (c : Smp.config) :
  Smp.run long_bits count_max level schedule (Smp.start v) = Some c ->
  (Smp.h_pc c = Smp.H_return /\ Smp.r_pc c = Smp.R_strlen) \/
  exists who c', Smp.step long_bits count_max level who c = Some c'.
Proof.
  intros H. apply smp_progress.
  apply (smp_run_invariant long_bits count_max level schedule (Smp.start v) c);
    [split; reflexivity|exact H].
Qed.

Lemma smp_never_stuck_witness :
  (Smp.h_pc {| Smp.sensor := {| value := -1; spinlock := true |};
               Smp.h_pc := Smp.H_while_above; Smp.r_pc := Smp.R_spin_lock;
               Smp.r_angle := -900; Smp.r_kbuffer := [] |} = Smp.H_return /\
   Smp.r_pc {| Smp.sensor := {| value := -1; spinlock := true |};
               Smp.h_pc := Smp.H_while_above; Smp.r_pc := Smp.R_spin_lock;
               Smp.r_angle := -900; Smp.r_kbuffer := [] |} = Smp.R_strlen) \/
  exists who c',
    Smp.step 64 4 0 who
      {| Smp.sensor := {| value := -1; spinlock := true |};
         Smp.h_pc := Smp.H_while_above; Smp.r_pc := Smp.R_spin_lock;
         Smp.r_angle := -900; Smp.r_kbuffer := [] |} = Some c'.
Proof.
  apply (smp_never_stuck 64 4 0 0 [Smp.Edge; Smp.Edge; Smp.Request]).
  vm_compute; reflexivity.
Defined.
